(** * Custom-Engine: the GPU buffer, the swap chain and the renderer

    A shallow embedding of the alignment-aware GPU buffer
    ([lve_buffer.hpp], [lve_buffer.cpp]), of the inline members of the swap
    chain ([lve_swap_chain.hpp]) and of the renderer ([lve_renderer.hpp]),
    with the properties the design document states about them.

    Conventions.
    - [VkDeviceSize] and [size_t] are 64-bit unsigned, [uint32_t] is 32-bit
      unsigned, [int] is 32-bit signed.  They are integers of [Z]; every
      unsigned operation of the source is written with its reduction modulo
      [2^64].
    - Vulkan handles, flags and enumerations are integers, as in the C API.
    - Host memory is a flat map from addresses to bytes; [nullptr] is
      address [0].
    - An [assert] of the source is modelled with assertions enabled: a false
      condition stops the call with [AssertionFailed]. *)

From Stdlib Require Import String ZArith List Lia Bool Zbitwise.
Import ListNotations.
Local Open Scope Z_scope.

(** ** Machine integers *)

Definition UINT64_MAX : Z := 2 ^ 64 - 1.
Definition UINT32_MAX : Z := 2 ^ 32 - 1.

Definition wrap64 (z : Z) : Z := z mod 2 ^ 64.

Definition u64_add (a b : Z) : Z := wrap64 (a + b).
Definition u64_sub (a b : Z) : Z := wrap64 (a - b).
Definition u64_mul (a b : Z) : Z := wrap64 (a * b).
Definition u64_not (a : Z) : Z := wrap64 (Z.lnot a).
Definition u64_and (a b : Z) : Z := Z.land a b.

(** Conversion of an [int] or a [uint32_t] operand to [VkDeviceSize] by the
    usual arithmetic conversions. *)
Definition to_u64 (z : Z) : Z := wrap64 z.

Definition is_u64 (z : Z) : Prop := 0 <= z <= UINT64_MAX.
Definition is_u32 (z : Z) : Prop := 0 <= z <= UINT32_MAX.

(** ** Results of a call *)

Inductive Outcome (A : Type) : Type :=
| Returned (a : A)
| AssertionFailed (message : string)
| Thrown (what : string)
| UndefinedBehaviour.

Arguments Returned {A} a.
Arguments AssertionFailed {A} message.
Arguments Thrown {A} what.
Arguments UndefinedBehaviour {A}.

(** ** Vulkan types used by the buffer *)

Definition VkDeviceSize := Z.
Definition VkResult := Z.
Definition VkFormat := Z.
Definition VkBuffer := Z.
Definition VkDeviceMemory := Z.
Definition VkCommandBuffer := Z.
Definition VkFence := Z.
Definition VkFlags := Z.
Definition address := Z.

Definition VK_SUCCESS : VkResult := 0.
Definition VK_SUBOPTIMAL_KHR : VkResult := 1000001003.
Definition VK_ERROR_OUT_OF_DATE_KHR : VkResult := -1000001004.

(** [VK_WHOLE_SIZE] is [(~0ULL)] in the Vulkan headers. *)
Definition VK_WHOLE_SIZE : VkDeviceSize := UINT64_MAX.
Definition VK_NULL_HANDLE : Z := 0.
Definition nullptr : address := 0.

Record VkMappedMemoryRange : Type := {
  range_memory : VkDeviceMemory;
  range_offset : VkDeviceSize;
  range_size : VkDeviceSize
}.

Record VkDescriptorBufferInfo : Type := {
  info_buffer : VkBuffer;
  info_offset : VkDeviceSize;
  info_range : VkDeviceSize
}.

(** What a call does to the outside, in the order it happens: the requests
    sent to the device and the copies made into host memory. *)
Inductive Event : Type :=
| CreateBuffer (size : VkDeviceSize) (usage properties : VkFlags)
| MapMemory (memory : VkDeviceMemory) (offset size : VkDeviceSize)
| UnmapMemory (memory : VkDeviceMemory)
| FlushMappedMemoryRanges (ranges : list VkMappedMemoryRange)
| InvalidateMappedMemoryRanges (ranges : list VkMappedMemoryRange)
| WaitForFence (fence : VkFence)
| ResetFence (fence : VkFence)
| QueueSubmit (commandBuffer : VkCommandBuffer) (waitSemaphore signalSemaphore : Z)
    (fence : VkFence)
| QueuePresent (waitSemaphore : Z) (imageIndex : Z)
| Memcpy (dst : address) (n : Z).

(** The device the engine talks to: what it answers to each request.
    [createBuffer] is [LveDevice::createBuffer], which either fills the two
    handles or throws. *)
Record LveDevice : Type := {
  createBuffer :
    VkDeviceSize -> VkFlags -> VkFlags -> Outcome (VkBuffer * VkDeviceMemory);
  vkMapMemory : VkDeviceMemory -> VkDeviceSize -> VkDeviceSize -> VkResult * address;
  vkFlushMappedMemoryRanges : list VkMappedMemoryRange -> VkResult;
  vkInvalidateMappedMemoryRanges : list VkMappedMemoryRange -> VkResult;
  (* the answer to a present may change from frame to frame: it is given
     the events so far *)
  vkQueuePresentKHR : list Event -> Z -> Z -> VkResult
}.

(** ** The state the calls act on, and the monad that threads it *)

Record World : Type := {
  hostMemory : address -> Byte.byte;
  events : list Event
}.

Definition M (A : Type) : Type := World -> Outcome (A * World).

Definition ret {A : Type} (a : A) : M A := fun w => Returned (a, w).

Definition bind {A B : Type} (m : M A) (k : A -> M B) : M B :=
  fun w =>
    match m w with
    | Returned (a, w') => k a w'
    | AssertionFailed s => AssertionFailed s
    | Thrown s => Thrown s
    | UndefinedBehaviour => UndefinedBehaviour
    end.

Notation "x <- m ;; k" := (bind m (fun x => k))
  (at level 61, m at next level, right associativity).
Notation "m ;;; k" := (bind m (fun _ => k))
  (at level 61, right associativity).

Definition assert (condition : bool) (message : string) : M unit :=
  fun w => if condition then Returned (tt, w) else AssertionFailed message.

Definition request (c : Event) : M unit :=
  fun w => Returned (tt, {| hostMemory := hostMemory w;
                            events := events w ++ [c] |}).

Definition lift {A : Type} (o : Outcome A) : M A :=
  fun w =>
    match o with
    | Returned a => Returned (a, w)
    | AssertionFailed s => AssertionFailed s
    | Thrown s => Thrown s
    | UndefinedBehaviour => UndefinedBehaviour
    end.

(** [std::vector::operator[]]: reading outside the vector is undefined. *)
Definition vector_at {A : Type} (v : list A) (i : Z) : Outcome A :=
  if (0 <=? i) && (i <? Z.of_nat (length v)) then
    match nth_error v (Z.to_nat i) with
    | Some a => Returned a
    | None => UndefinedBehaviour
    end
  else UndefinedBehaviour.

Fixpoint replace_nth {A : Type} (n : nat) (a : A) (v : list A) : list A :=
  match v, n with
  | [], _ => []
  | _ :: v', O => a :: v'
  | x :: v', S n' => x :: replace_nth n' a v'
  end.

(** Assignment to [v[i]]. *)
Definition vector_set {A : Type} (v : list A) (i : Z) (a : A) : Outcome (list A) :=
  if (0 <=? i) && (i <? Z.of_nat (length v)) then
    Returned (replace_nth (Z.to_nat i) a v)
  else UndefinedBehaviour.

(** [memcpy dst src n]: the [n] bytes [src 0 .. src (n-1)] are stored at
    addresses [dst .. dst + n - 1]; every other address keeps its byte. *)
Definition copy_bytes (dst : address) (src : Z -> Byte.byte) (n : Z)
  (mem : address -> Byte.byte) : address -> Byte.byte :=
  fun a => if (dst <=? a) && (a <? dst + n) then src (a - dst) else mem a.

Definition memcpy (dst : address) (src : Z -> Byte.byte) (n : Z) : M unit :=
  fun w => Returned (tt, {| hostMemory := copy_bytes dst src n (hostMemory w);
                            events := events w ++ [Memcpy dst n] |}).

(** The byte range [[start, start + len)] and two ranges without a common
    byte. *)
Definition in_range (start len x : Z) : Prop := start <= x < start + len.

Definition disjoint (start1 len1 start2 len2 : Z) : Prop :=
  forall x, ~ (in_range start1 len1 x /\ in_range start2 len2 x).

(** [ceil (a / b)], for a positive [b]. *)
Definition ceil_div (a b : Z) : Z :=
  if a mod b =? 0 then a / b else a / b + 1.

(** ** LveBuffer *)

Module LveBuffer.

Record t : Type := {
  lveDevice : LveDevice;
  mapped : address;
  buffer : VkBuffer;
  memory : VkDeviceMemory;
  bufferSize : VkDeviceSize;
  instanceCount : Z;
  instanceSize : VkDeviceSize;
  alignmentSize : VkDeviceSize;
  usageFlags : VkFlags;
  memoryPropertyFlags : VkFlags
}.

Definition set_mapped (b : t) (p : address) : t :=
  {| lveDevice := lveDevice b; mapped := p; buffer := buffer b;
     memory := memory b; bufferSize := bufferSize b;
     instanceCount := instanceCount b; instanceSize := instanceSize b;
     alignmentSize := alignmentSize b; usageFlags := usageFlags b;
     memoryPropertyFlags := memoryPropertyFlags b |}.

(** [LveBuffer::getAlignment] *)
Definition getAlignment (instanceSize minOffsetAlignment : VkDeviceSize)
  : VkDeviceSize :=
  if 0 <? minOffsetAlignment then
    u64_and (u64_sub (u64_add instanceSize minOffsetAlignment) 1)
            (u64_not (u64_sub minOffsetAlignment 1))
  else instanceSize.

(** The constructor [LveBuffer::LveBuffer]. *)
Definition new (device : LveDevice) (instanceSize : VkDeviceSize)
  (instanceCount : Z) (usageFlags memoryPropertyFlags : VkFlags)
  (minOffsetAlignment : VkDeviceSize) : M t :=
  let alignmentSize := getAlignment instanceSize minOffsetAlignment in
  let bufferSize := u64_mul alignmentSize (to_u64 instanceCount) in
  request (CreateBuffer bufferSize usageFlags memoryPropertyFlags) ;;;
  handles <- lift (createBuffer device bufferSize usageFlags memoryPropertyFlags) ;;
  ret {| lveDevice := device; mapped := nullptr;
         buffer := fst handles; memory := snd handles;
         bufferSize := bufferSize; instanceCount := instanceCount;
         instanceSize := instanceSize; alignmentSize := alignmentSize;
         usageFlags := usageFlags;
         memoryPropertyFlags := memoryPropertyFlags |}.

(** [LveBuffer::map]: the device chooses the host address. *)
Definition map (b : t) (size offset : VkDeviceSize) : M (VkResult * t) :=
  assert (negb (buffer b =? VK_NULL_HANDLE) && negb (memory b =? VK_NULL_HANDLE))
         "Called map on buffer before create" ;;;
  request (MapMemory (memory b) offset size) ;;;
  let answer := vkMapMemory (lveDevice b) (memory b) offset size in
  ret (fst answer,
       if fst answer =? VK_SUCCESS then set_mapped b (snd answer) else b).

(** [LveBuffer::unmap] *)
Definition unmap (b : t) : M t :=
  if negb (mapped b =? nullptr) then
    request (UnmapMemory (memory b)) ;;;
    ret (set_mapped b nullptr)
  else ret b.

(** [LveBuffer::writeToBuffer] *)
Definition writeToBuffer (b : t) (data : Z -> Byte.byte)
  (size offset : VkDeviceSize) : M unit :=
  assert (negb (mapped b =? nullptr)) "Cannot copy to unmapped buffer" ;;;
  if size =? VK_WHOLE_SIZE then
    memcpy (mapped b) data (bufferSize b)
  else
    let memOffset := mapped b in
    let memOffset := memOffset + offset in
    memcpy memOffset data size.

(** [LveBuffer::flush] *)
Definition flush (b : t) (size offset : VkDeviceSize) : M VkResult :=
  let mappedRange :=
    {| range_memory := memory b; range_offset := offset; range_size := size |} in
  request (FlushMappedMemoryRanges [mappedRange]) ;;;
  ret (vkFlushMappedMemoryRanges (lveDevice b) [mappedRange]).

(** [LveBuffer::invalidate] *)
Definition invalidate (b : t) (size offset : VkDeviceSize) : M VkResult :=
  let mappedRange :=
    {| range_memory := memory b; range_offset := offset; range_size := size |} in
  request (InvalidateMappedMemoryRanges [mappedRange]) ;;;
  ret (vkInvalidateMappedMemoryRanges (lveDevice b) [mappedRange]).

(** [LveBuffer::descriptorInfo] *)
Definition descriptorInfo (b : t) (size offset : VkDeviceSize)
  : VkDescriptorBufferInfo :=
  {| info_buffer := buffer b; info_offset := offset; info_range := size |}.

(** [LveBuffer::writeToIndex]: [index] is an [int], converted to
    [VkDeviceSize] for the product. *)
Definition writeToIndex (b : t) (data : Z -> Byte.byte) (index : Z) : M unit :=
  writeToBuffer b data (instanceSize b) (u64_mul (to_u64 index) (alignmentSize b)).

(** [LveBuffer::flushIndex] *)
Definition flushIndex (b : t) (index : Z) : M VkResult :=
  flush b (alignmentSize b) (u64_mul (to_u64 index) (alignmentSize b)).

(** [LveBuffer::descriptorInfoForIndex] *)
Definition descriptorInfoForIndex (b : t) (index : Z) : VkDescriptorBufferInfo :=
  descriptorInfo b (alignmentSize b) (u64_mul (to_u64 index) (alignmentSize b)).

(** [LveBuffer::invalidateIndex] *)
Definition invalidateIndex (b : t) (index : Z) : M VkResult :=
  invalidate b (alignmentSize b) (u64_mul (to_u64 index) (alignmentSize b)).

(** The inline accessors of [lve_buffer.hpp]. *)
Definition getBuffer (b : t) : VkBuffer := buffer b.
Definition getMappedMemory (b : t) : address := mapped b.
Definition getInstanceCount (b : t) : Z := instanceCount b.
Definition getInstanceSize (b : t) : VkDeviceSize := instanceSize b.
Definition getAlignmentSize (b : t) : VkDeviceSize := instanceSize b.
Definition getUsageFlags (b : t) : VkFlags := usageFlags b.
Definition getMemoryPropertyFlags (b : t) : VkFlags := memoryPropertyFlags b.
Definition getBufferSize (b : t) : VkDeviceSize := bufferSize b.

(** [b] carries the sizes the constructor computes from these arguments,
    which are of the parameters' types.  [map] and [unmap] keep them. *)
Definition constructed (size count alignment : Z) (b : t) : Prop :=
  is_u64 size /\ is_u32 count /\ is_u64 alignment /\
  instanceSize b = size /\ instanceCount b = count /\
  alignmentSize b = getAlignment size alignment /\
  bufferSize b = u64_mul (getAlignment size alignment) (to_u64 count).

(** Neither the sum in [getAlignment] nor the product in the constructor
    exceeds what [VkDeviceSize] holds. *)
Definition sizes_fit (size count alignment : Z) : Prop :=
  size + alignment - 1 <= UINT64_MAX /\
  getAlignment size alignment * count <= UINT64_MAX.

End LveBuffer.

(** ** LveSwapChain *)

Module LveSwapChain.

Definition MAX_FRAMES_IN_FLIGHT : Z := 2.

Record VkExtent2D : Type := { width : Z; height : Z }.

Record t : Type := {
  swapChainImageFormat : VkFormat;
  swapChainDepthFormat : VkFormat;
  swapChainExtent : VkExtent2D;
  swapChainFramebuffers : list Z;
  renderPass : Z;
  swapChainImages : list Z;
  swapChainImageViews : list Z;
  device : LveDevice;
  windowExtent : VkExtent2D;
  imageAvailableSemaphores : list Z;
  renderFinishedSemaphores : list Z;
  inFlightFences : list VkFence;
  imagesInFlight : list VkFence;
  currentFrame : Z
}.

Definition getFrameBuffer (sc : t) (index : Z) : Outcome Z :=
  vector_at (swapChainFramebuffers sc) index.
Definition getRenderPass (sc : t) : Z := renderPass sc.
Definition getImageView (sc : t) (index : Z) : Outcome Z :=
  vector_at (swapChainImageViews sc) index.
Definition imageCount (sc : t) : Z := Z.of_nat (length (swapChainImages sc)).
Definition getSwapChainImageFormat (sc : t) : VkFormat := swapChainImageFormat sc.
Definition getSwapChainExtent (sc : t) : VkExtent2D := swapChainExtent sc.

(** [LveSwapChain::compareSwapFormats]: [this] is the first argument, the
    parameter [swapChain] the second. *)
Definition compareSwapFormats (this swapChain : t) : bool :=
  (swapChainDepthFormat swapChain =? swapChainDepthFormat this)
  && (swapChainImageFormat swapChain =? swapChainImageFormat this).

Definition set_frame (sc : t) (inFlight : list VkFence) (frame : Z) : t :=
  {| swapChainImageFormat := swapChainImageFormat sc;
     swapChainDepthFormat := swapChainDepthFormat sc;
     swapChainExtent := swapChainExtent sc;
     swapChainFramebuffers := swapChainFramebuffers sc;
     renderPass := renderPass sc;
     swapChainImages := swapChainImages sc;
     swapChainImageViews := swapChainImageViews sc;
     device := device sc;
     windowExtent := windowExtent sc;
     imageAvailableSemaphores := imageAvailableSemaphores sc;
     renderFinishedSemaphores := renderFinishedSemaphores sc;
     inFlightFences := inFlightFences sc;
     imagesInFlight := inFlight;
     currentFrame := frame |}.

(** Modelled from the spec: the body of [LveSwapChain::submitCommandBuffers].
    The header declares it, its definition ([lve_swap_chain.cpp]) is not
    among the sources.  Following section 4.2 of the design document: when
    the target swap image is still marked in use by a frame slot, wait on
    that slot's fence; mark the image as used by the current slot; reset the
    current slot's fence; submit the command buffer gated on the slot's
    image-available semaphore, signalling its render-finished semaphore and
    its fence; present gated on render-finished; advance
    [currentFrame = (currentFrame + 1) mod MAX_FRAMES_IN_FLIGHT] whatever
    the present answered; return the present's status. *)
Definition submitCommandBuffers (sc : t) (buffers : VkCommandBuffer)
  (imageIndex : Z) : M (VkResult * t) :=
  inUse <- lift (vector_at (imagesInFlight sc) imageIndex) ;;
  (if negb (inUse =? VK_NULL_HANDLE) then request (WaitForFence inUse)
   else ret tt) ;;;
  fence <- lift (vector_at (inFlightFences sc) (currentFrame sc)) ;;
  marked <- lift (vector_set (imagesInFlight sc) imageIndex fence) ;;
  imageAvailable <-
    lift (vector_at (imageAvailableSemaphores sc) (currentFrame sc)) ;;
  renderFinished <-
    lift (vector_at (renderFinishedSemaphores sc) (currentFrame sc)) ;;
  request (ResetFence fence) ;;;
  request (QueueSubmit buffers imageAvailable renderFinished fence) ;;;
  fun w =>
    let result := vkQueuePresentKHR (device sc) (events w)
                    renderFinished imageIndex in
    (request (QueuePresent renderFinished imageIndex) ;;;
     ret (result,
          set_frame sc marked ((currentFrame sc + 1) mod MAX_FRAMES_IN_FLIGHT))) w.

(** The chain as construction leaves it and as every submission keeps it:
    one semaphore pair and one fence per frame slot, one in-flight entry per
    swap image, and the frame index inside the slots. *)
Definition ready (sc : t) : Prop :=
  0 <= currentFrame sc < MAX_FRAMES_IN_FLIGHT /\
  Z.of_nat (length (imageAvailableSemaphores sc)) = MAX_FRAMES_IN_FLIGHT /\
  Z.of_nat (length (renderFinishedSemaphores sc)) = MAX_FRAMES_IN_FLIGHT /\
  Z.of_nat (length (inFlightFences sc)) = MAX_FRAMES_IN_FLIGHT /\
  length (imagesInFlight sc) = length (swapChainImages sc).

(** The frame slots [start, start + 1, ...] modulo [MAX_FRAMES_IN_FLIGHT],
    [n] of them. *)
Definition slot_cycle (start : Z) (n : nat) : list Z :=
  List.map (fun k => (start + Z.of_nat k) mod MAX_FRAMES_IN_FLIGHT) (seq 0 n).

(** A run of submissions, one per frame: the frame slot used by each
    submission and the status it returned, with the chain left behind. *)
Fixpoint submitFrames (sc : t) (frames : list (VkCommandBuffer * Z))
  : M (list (Z * VkResult) * t) :=
  match frames with
  | [] => ret ([], sc)
  | (buffers, imageIndex) :: rest =>
      r <- submitCommandBuffers sc buffers imageIndex ;;
      rs <- submitFrames (snd r) rest ;;
      ret ((currentFrame sc, fst r) :: fst rs, snd rs)
  end.

End LveSwapChain.

(** ** LveRenderer *)

Module LveRenderer.

Record t : Type := {
  commandBuffers : list VkCommandBuffer;
  currentImageIndex : Z;
  currentFrameIndex : Z;
  isFrameStarted : bool
}.

Definition isFrameInProgres (r : t) : bool := isFrameStarted r.

(** [LveRenderer::getCurrentCommandBuffer] *)
Definition getCurrentCommandBuffer (r : t) : Outcome VkCommandBuffer :=
  if isFrameStarted r then vector_at (commandBuffers r) (currentFrameIndex r)
  else AssertionFailed "Cannot get command buffer when frame not in progress".

(** [LveRenderer::getFrameIndex] *)
Definition getFrameIndex (r : t) : Outcome Z :=
  if isFrameStarted r then Returned (currentFrameIndex r)
  else AssertionFailed "Cannot get frame index when frame not in progress".

End LveRenderer.

(** ** A device and a world to run the model on *)

Definition testDevice : LveDevice :=
  {| createBuffer := fun _ _ _ => Returned (1, 2);
     vkMapMemory := fun _ _ _ => (VK_SUCCESS, 4096);
     vkFlushMappedMemoryRanges := fun _ => VK_SUCCESS;
     vkInvalidateMappedMemoryRanges := fun _ => VK_SUCCESS;
     vkQueuePresentKHR := fun calls _ _ =>
       match Z.of_nat (List.length calls) mod 3 with
       | 0 => VK_SUCCESS
       | 1 => VK_SUBOPTIMAL_KHR
       | _ => VK_ERROR_OUT_OF_DATE_KHR
       end |}.

Definition emptyWorld : World :=
  {| hostMemory := fun _ => Byte.x00; events := [] |}.

(** A chain of three images in the state construction leaves it in. *)
Definition testChain : LveSwapChain.t :=
  {| LveSwapChain.swapChainImageFormat := 50;
     LveSwapChain.swapChainDepthFormat := 126;
     LveSwapChain.swapChainExtent :=
       {| LveSwapChain.width := 800; LveSwapChain.height := 600 |};
     LveSwapChain.swapChainFramebuffers := [31; 32; 33];
     LveSwapChain.renderPass := 7;
     LveSwapChain.swapChainImages := [11; 12; 13];
     LveSwapChain.swapChainImageViews := [21; 22; 23];
     LveSwapChain.device := testDevice;
     LveSwapChain.windowExtent :=
       {| LveSwapChain.width := 800; LveSwapChain.height := 600 |};
     LveSwapChain.imageAvailableSemaphores := [41; 42];
     LveSwapChain.renderFinishedSemaphores := [51; 52];
     LveSwapChain.inFlightFences := [61; 62];
     LveSwapChain.imagesInFlight := [0; 0; 0];
     LveSwapChain.currentFrame := 0 |}.

(** [testChain] rebuilt after a resize: another extent and two images, the
    formats kept. *)
Definition resizedChain : LveSwapChain.t :=
  {| LveSwapChain.swapChainImageFormat := 50;
     LveSwapChain.swapChainDepthFormat := 126;
     LveSwapChain.swapChainExtent :=
       {| LveSwapChain.width := 1280; LveSwapChain.height := 720 |};
     LveSwapChain.swapChainFramebuffers := [34; 35];
     LveSwapChain.renderPass := 8;
     LveSwapChain.swapChainImages := [14; 15];
     LveSwapChain.swapChainImageViews := [24; 25];
     LveSwapChain.device := testDevice;
     LveSwapChain.windowExtent :=
       {| LveSwapChain.width := 1280; LveSwapChain.height := 720 |};
     LveSwapChain.imageAvailableSemaphores := [43; 44];
     LveSwapChain.renderFinishedSemaphores := [53; 54];
     LveSwapChain.inFlightFences := [63; 64];
     LveSwapChain.imagesInFlight := [0; 0];
     LveSwapChain.currentFrame := 0 |}.

Definition idleRenderer : LveRenderer.t :=
  {| LveRenderer.commandBuffers := [71; 72];
     LveRenderer.currentImageIndex := 0;
     LveRenderer.currentFrameIndex := 1;
     LveRenderer.isFrameStarted := false |}.

Definition activeRenderer : LveRenderer.t :=
  {| LveRenderer.commandBuffers := [71; 72];
     LveRenderer.currentImageIndex := 2;
     LveRenderer.currentFrameIndex := 1;
     LveRenderer.isFrameStarted := true |}.

(** What a program returns and the events it leaves when it is run in the
    empty world. *)
Definition value_of {A : Type} (m : M A) : option A :=
  match m emptyWorld with
  | Returned (a, _) => Some a
  | _ => None
  end.

Definition trace_of {A : Type} (m : M A) : option (list Event) :=
  match m emptyWorld with
  | Returned (_, w) => Some (events w)
  | _ => None
  end.

(** A buffer built on [testDevice] and mapped whole. *)
Definition mappedBuffer (size count alignment : Z) : M LveBuffer.t :=
  b <- LveBuffer.new testDevice size count 0 0 alignment ;;
  r <- LveBuffer.map b VK_WHOLE_SIZE 0 ;;
  ret (snd r).

(** The uniform buffer of the design document's scenario, as
    [mappedBuffer 68 3 64] returns it. *)
Definition uniformBuffer : LveBuffer.t :=
  {| LveBuffer.lveDevice := testDevice; LveBuffer.mapped := 4096;
     LveBuffer.buffer := 1; LveBuffer.memory := 2;
     LveBuffer.bufferSize := 384; LveBuffer.instanceCount := 3;
     LveBuffer.instanceSize := 68; LveBuffer.alignmentSize := 128;
     LveBuffer.usageFlags := 0; LveBuffer.memoryPropertyFlags := 0 |}.

(** The same buffer before [map], or after [unmap]. *)
Definition unmappedBuffer : LveBuffer.t := LveBuffer.set_mapped uniformBuffer nullptr.

Definition testData : Z -> Byte.byte := fun _ => Byte.x2a.




(** ** hashCombine ([lve_utils.hpp]) *)

Module Utils.

Definition u64_shl (a n : Z) : Z := wrap64 (Z.shiftl a n).

(** The first statement of [hashCombine]:
    [seed ^= std::hash<T>{}(v) + 0x9e3779b9 + (seed << 6) + (seed >> 2)].
    The value [h] is what [std::hash<T>{}(v)] returned, a [size_t]. *)
Definition combine (seed h : Z) : Z :=
  Z.lxor seed
    (u64_add (u64_add (u64_add h 2654435769) (u64_shl seed 6)) (Z.shiftr seed 2)).

(** [hashCombine (seed, v, rest...)]: the first statement on [v], then the
    fold [(hashCombine (seed, rest), ...)], one call for each remaining
    argument from left to right.  It returns the final [seed]. *)
Definition hashCombine (seed : Z) (h : Z) (rest : list Z) : Z :=
  fold_left combine rest (combine seed h).

End Utils.

(** ** LveGameObject ([lve_game_object.hpp]) *)

Module LveGameObject.

Definition UINT_MAX : Z := 2 ^ 32 - 1.
Definition wrap32 (z : Z) : Z := z mod 2 ^ 32.

(** The member set by the private constructor; the other members take their
    default values. *)
Record t : Type := { id : Z }.

(** [LveGameObject::createGameObject]: the function-local
    [static id_t currentId] is the state, [currentId++] on [unsigned int]. *)
Definition createGameObject (currentId : Z) : t * Z :=
  ({| id := currentId |}, wrap32 (currentId + 1)).

Definition getId (o : t) : Z := id o.

(** [n] calls in a row. *)
Fixpoint createGameObjects (n : nat) (currentId : Z) : list t * Z :=
  match n with
  | O => ([], currentId)
  | S n' =>
      let (o, next) := createGameObject currentId in
      let (os, last) := createGameObjects n' next in
      (o :: os, last)
  end.

End LveGameObject.

(** ** AABB and Colision ([AABB.hpp], [Colision.hpp]) *)

(** The members of these classes that only compare and select their [float]
    arguments.  [F] stands for the values the comparisons see, NaN left out:
    [flt a b] is [a < b] and [fle a b] is [a <= b]; the source's [a > b] is
    [flt b a] and [a >= b] is [fle b a].  Without NaN [<=] is a total
    preorder (it does not tell [+0] from [-0]) and [<] is its strict part. *)
Class FloatOrder (F : Type) : Type := {
  flt : F -> F -> bool;
  fle : F -> F -> bool;
  fle_trans : forall a b c, fle a b = true -> fle b c = true -> fle a c = true;
  fle_total : forall a b, fle a b = true \/ fle b a = true;
  flt_fle : forall a b, flt a b = negb (fle b a)
}.

#[export] Instance Z_FloatOrder : FloatOrder Z.
Proof.
  refine {| flt := Z.ltb; fle := Z.leb |}.
  - intros a b c H1 H2. apply Z.leb_le in H1, H2. apply Z.leb_le. lia.
  - intros a b. rewrite !Z.leb_le. lia.
  - intros a b. apply Z.ltb_antisym.
Defined.

Module AABB.

Section Boxes.

Context {F : Type} {order : FloatOrder F}.

Record vec3 : Type := { x : F; y : F; z : F }.

Record t : Type := {
  minX : F; maxX : F;
  minY : F; maxY : F;
  minZ : F; maxZ : F
}.

(** [AABB::AABB (glm::vec3 pointA, glm::vec3 pointB)] *)
Definition of_points (pointA pointB : vec3) : t :=
  {| minX := if flt (x pointA) (x pointB) then x pointA else x pointB;
     maxX := if flt (x pointB) (x pointA) then x pointA else x pointB;
     minY := if flt (y pointA) (y pointB) then y pointA else y pointB;
     maxY := if flt (y pointB) (y pointA) then y pointA else y pointB;
     minZ := if flt (z pointA) (z pointB) then z pointA else z pointB;
     maxZ := if flt (z pointB) (z pointA) then z pointA else z pointB |}.

(** [AABB::setBoxPoint]: every member is assigned, so the new box does not
    depend on the old one. *)
Definition setBoxPoint (this : t) (pointA pointB : vec3) : t :=
  {| minX := if flt (x pointA) (x pointB) then x pointA else x pointB;
     maxX := if flt (x pointB) (x pointA) then x pointA else x pointB;
     minY := if flt (y pointA) (y pointB) then y pointA else y pointB;
     maxY := if flt (y pointB) (y pointA) then y pointA else y pointB;
     minZ := if flt (z pointA) (z pointB) then z pointA else z pointB;
     maxZ := if flt (z pointB) (z pointA) then z pointA else z pointB |}.

(** [AABB::isIntersectAABB] *)
Definition isIntersectAABB (this box : t) : bool :=
  fle (minX box) (maxX this) && fle (minX this) (maxX box)
  && fle (minY box) (maxY this) && fle (minY this) (maxY box)
  && fle (minZ box) (maxZ this) && fle (minZ this) (maxZ box).

(** [AABB::isPointInside] *)
Definition isPointInside (this : t) (point : vec3) : bool :=
  fle (minX this) (x point) && fle (x point) (maxX this)
  && fle (minY this) (y point) && fle (y point) (maxY this)
  && fle (minZ this) (z point) && fle (z point) (maxZ this).

(** [AABB::min] and [AABB::max], private; [Colision::min] and
    [Colision::max] are the same two functions. *)
Definition min (a b : F) : F := if flt b a then b else a.
Definition max (a b : F) : F := if fle b a then a else b.

(** [Colision::isPointInsideAABB] *)
Definition Colision_isPointInsideAABB (point : vec3) (box : t) : bool :=
  fle (minX box) (x point) && fle (x point) (maxX box)
  && fle (minY box) (y point) && fle (y point) (maxY box)
  && fle (minZ box) (z point) && fle (z point) (maxZ box).

(** [Colision::isIntersectAABB2] *)
Definition Colision_isIntersectAABB2 (boxA boxB : t) : bool :=
  fle (minX boxA) (maxX boxB) && fle (minX boxB) (maxX boxA)
  && fle (minY boxA) (maxY boxB) && fle (minY boxB) (maxY boxA)
  && fle (minZ boxA) (maxZ boxB) && fle (minZ boxB) (maxZ boxA).

(** A box whose minimum is not above its maximum on any axis. *)
Definition well_formed (box : t) : Prop :=
  fle (minX box) (maxX box) = true
  /\ fle (minY box) (maxY box) = true
  /\ fle (minZ box) (maxZ box) = true.

End Boxes.

Arguments vec3 F : clear implicits.
Arguments t F : clear implicits.

End AABB.

(** Two boxes and two points on integer coordinates. *)
Definition unitBox : AABB.t Z :=
  {| AABB.minX := 0; AABB.maxX := 10; AABB.minY := 0; AABB.maxY := 10;
     AABB.minZ := 0; AABB.maxZ := 10 |}.

Definition shiftedBox : AABB.t Z :=
  {| AABB.minX := 5; AABB.maxX := 15; AABB.minY := 5; AABB.maxY := 15;
     AABB.minZ := 5; AABB.maxZ := 15 |}.

Definition cornerA : AABB.vec3 Z := {| AABB.x := 4; AABB.y := -1; AABB.z := 7 |}.
Definition cornerB : AABB.vec3 Z := {| AABB.x := 2; AABB.y := 3; AABB.z := 7 |}.

Definition otherData : Z -> Byte.byte := fun _ => Byte.x07.

(** * Properties *)

(** ** Arithmetic of [VkDeviceSize] *)

Ltac bounds := unfold is_u64, is_u32, UINT64_MAX, UINT32_MAX in *; lia.

Lemma wrap64_small (z : Z) : 0 <= z <= UINT64_MAX -> wrap64 z = z.
Proof.
  unfold wrap64, UINT64_MAX. intros H. apply Z.mod_small. lia.
Qed.

Lemma wrap64_range (z : Z) : 0 <= wrap64 z <= UINT64_MAX.
Proof.
  unfold wrap64, UINT64_MAX.
  pose proof (Z.mod_pos_bound z (2 ^ 64) ltac:(lia)). lia.
Qed.

Lemma land_wrap64_r (x z : Z) :
  0 <= x <= UINT64_MAX -> Z.land x (wrap64 z) = Z.land x z.
Proof.
  intros Hx. unfold wrap64.
  rewrite <- (Z.land_ones z 64) by lia.
  rewrite (Z.land_comm z), Z.land_assoc, Z.land_ones by lia.
  fold (wrap64 x). now rewrite wrap64_small.
Qed.

Lemma land_le_r (x y : Z) : 0 <= y -> Z.land x y <= y.
Proof.
  intros Hy. apply (Z.ldiff_le (Z.land x y) y Hy).
  apply Z.bits_inj'. intros i Hi.
  rewrite Z.ldiff_spec, Z.land_spec, Z.bits_0.
  destruct (Z.testbit x i), (Z.testbit y i); reflexivity.
Qed.

(** Clearing the bits of [y] in [x] removes at most [y]. *)
Lemma land_lnot_bounds (x y : Z) :
  0 <= x -> 0 <= y -> x - y <= Z.land x (Z.lnot y) <= x.
Proof.
  intros Hx Hy.
  rewrite <- Z.sub_land_same_l.
  pose proof (land_le_r x y Hy).
  pose proof (proj2 (Z.land_nonneg x y) (or_introl Hx)). lia.
Qed.

Lemma ceil_div_add (a b : Z) : 0 < b -> ceil_div a b = (a + b - 1) / b.
Proof.
  intros Hb. unfold ceil_div.
  pose proof (Z.div_mod a b ltac:(lia)) as Hdm.
  pose proof (Z.mod_pos_bound a b Hb) as Hr.
  destruct (Z.eqb_spec (a mod b) 0) as [E | E].
  - apply (Z.div_unique _ _ _ (b - 1)); lia.
  - apply (Z.div_unique _ _ _ (a mod b - 1)); lia.
Qed.

(** [ceil (a / b) * b] is the least multiple of [b] that is not below [a]. *)
Lemma ceil_div_least (a b : Z) :
  0 < b ->
  a <= ceil_div a b * b < a + b /\ (ceil_div a b * b) mod b = 0.
Proof.
  intros Hb. rewrite ceil_div_add by exact Hb.
  pose proof (Z.div_mod (a + b - 1) b ltac:(lia)) as Hdm.
  pose proof (Z.mod_pos_bound (a + b - 1) b Hb) as Hr.
  split; [lia | apply Z.mod_mul; lia].
Qed.

(** ** [memcpy] *)

Lemma copy_bytes_inside (dst n x : Z) (src mem : Z -> Byte.byte) :
  in_range dst n x -> copy_bytes dst src n mem x = src (x - dst).
Proof.
  unfold in_range, copy_bytes. intros [H1 H2].
  destruct (Z.leb_spec dst x); [| lia].
  destruct (Z.ltb_spec x (dst + n)); [reflexivity | lia].
Qed.

Lemma copy_bytes_outside (dst n x : Z) (src mem : Z -> Byte.byte) :
  ~ in_range dst n x -> copy_bytes dst src n mem x = mem x.
Proof.
  unfold in_range, copy_bytes. intros H.
  destruct (Z.leb_spec dst x); [| reflexivity].
  destruct (Z.ltb_spec x (dst + n)); [lia | reflexivity].
Qed.

(** ** [getAlignment] *)

Lemma getAlignment_land (size alignment : Z) :
  0 <= size -> 0 < alignment -> size + alignment - 1 <= UINT64_MAX ->
  LveBuffer.getAlignment size alignment
  = Z.land (size + alignment - 1) (Z.lnot (alignment - 1)).
Proof.
  intros Hs Ha Hfit. unfold LveBuffer.getAlignment.
  destruct (Z.ltb_spec 0 alignment); [| lia].
  unfold u64_and, u64_sub, u64_add, u64_not.
  assert (E : wrap64 (wrap64 (size + alignment) - 1) = size + alignment - 1).
  { assert (Hsum : size + alignment <= UINT64_MAX
                   \/ size + alignment = UINT64_MAX + 1) by lia.
    destruct Hsum as [Hsum | Hsum].
    - rewrite (wrap64_small (size + alignment)) by lia.
      apply wrap64_small; lia.
    - rewrite Hsum. reflexivity. }
  rewrite E.
  rewrite (wrap64_small (alignment - 1)) by bounds.
  apply land_wrap64_r. lia.
Qed.

(** Without wrap-around the aligned size is never below the instance size,
    whatever the alignment. *)
Lemma getAlignment_bounds (size alignment : Z) :
  is_u64 size -> 0 <= alignment -> size + alignment - 1 <= UINT64_MAX ->
  size <= LveBuffer.getAlignment size alignment <= UINT64_MAX.
Proof.
  intros [Hs Hs'] Ha Hfit.
  destruct (Z.eq_dec alignment 0) as [-> | Hne].
  - unfold LveBuffer.getAlignment. simpl. lia.
  - rewrite getAlignment_land by lia.
    pose proof (land_lnot_bounds (size + alignment - 1) (alignment - 1)
                  ltac:(lia) ltac:(lia)).
    lia.
Qed.

(** For a power of two the mask rounds up to the next multiple. *)
Lemma getAlignment_pow2 (size k : Z) :
  0 <= size -> 0 <= k -> size + 2 ^ k - 1 <= UINT64_MAX ->
  LveBuffer.getAlignment size (2 ^ k) = ceil_div size (2 ^ k) * 2 ^ k.
Proof.
  intros Hs Hk Hfit.
  assert (Hp : 0 < 2 ^ k) by (apply Z.pow_pos_nonneg; lia).
  rewrite getAlignment_land by lia.
  rewrite ceil_div_add by exact Hp.
  rewrite <- Z.ldiff_land.
  replace (2 ^ k - 1) with (Z.ones k) by (rewrite Z.ones_equiv; lia).
  rewrite Z.ldiff_ones_r by exact Hk.
  rewrite Z.shiftr_div_pow2, Z.shiftl_mul_pow2 by exact Hk.
  reflexivity.
Qed.

(** ** The buffer's operations, run *)

Section BufferRuns.

Variables (size count alignment : Z) (b : LveBuffer.t).
Hypothesis Hb : LveBuffer.constructed size count alignment b.

Lemma constructed_alignment_u64 :
  LveBuffer.sizes_fit size count alignment ->
  size <= LveBuffer.alignmentSize b <= UINT64_MAX.
Proof.
  destruct Hb as (Hs & Hn & Hm & _ & _ & Ha & _). intros [Hsum _].
  rewrite Ha. apply getAlignment_bounds; [exact Hs | bounds | exact Hsum].
Qed.

(** The offset every indexed operation computes is the true product. *)
Lemma index_offset (index : Z) :
  LveBuffer.sizes_fit size count alignment -> 0 <= index < count ->
  u64_mul (to_u64 index) (LveBuffer.alignmentSize b)
  = index * LveBuffer.alignmentSize b.
Proof.
  intros Hfit Hi. pose proof (constructed_alignment_u64 Hfit) as Ha.
  destruct Hb as (Hs & Hn & Hm & _ & _ & Ea & _). destruct Hfit as [_ Hprod].
  rewrite <- Ea in Hprod.
  unfold u64_mul, to_u64. rewrite (wrap64_small index) by bounds.
  apply wrap64_small. unfold is_u64 in Hs. nia.
Qed.

Lemma constructed_bufferSize :
  LveBuffer.sizes_fit size count alignment ->
  LveBuffer.bufferSize b = LveBuffer.alignmentSize b * count.
Proof.
  intros Hfit. pose proof (constructed_alignment_u64 Hfit) as Ha.
  destruct Hb as (Hs & Hn & Hm & _ & _ & Ea & Eb). destruct Hfit as [_ Hprod].
  rewrite Eb, Ea. unfold u64_mul, to_u64.
  rewrite (wrap64_small count) by bounds.
  apply wrap64_small. rewrite Ea in Ha. unfold is_u64, is_u32 in *. nia.
Qed.

Lemma writeToBuffer_run (data : Z -> Byte.byte) (n offset : Z) (w : World) :
  LveBuffer.mapped b <> nullptr ->
  LveBuffer.writeToBuffer b data n offset w
  = if n =? VK_WHOLE_SIZE
    then memcpy (LveBuffer.mapped b) data (LveBuffer.bufferSize b) w
    else memcpy (LveBuffer.mapped b + offset) data n w.
Proof.
  intros Hmapped. unfold LveBuffer.writeToBuffer, bind, assert.
  destruct (Z.eqb_spec (LveBuffer.mapped b) nullptr) as [E | _];
    [contradiction |].
  simpl. destruct (n =? VK_WHOLE_SIZE); reflexivity.
Qed.

Lemma writeToIndex_run (data : Z -> Byte.byte) (index : Z) (w : World) :
  LveBuffer.sizes_fit size count alignment -> 0 <= index < count ->
  LveBuffer.mapped b <> nullptr ->
  LveBuffer.writeToIndex b data index w
  = memcpy (LveBuffer.mapped b + index * LveBuffer.alignmentSize b) data size w.
Proof.
  intros Hfit Hi Hmapped. unfold LveBuffer.writeToIndex.
  rewrite writeToBuffer_run by exact Hmapped.
  rewrite (index_offset _ Hfit Hi).
  pose proof (constructed_alignment_u64 Hfit) as Ha.
  pose proof (constructed_bufferSize Hfit) as Ebuf.
  destruct Hb as (Hs & Hn & Hm & Es & En & Ea & Eb). rewrite Es.
  destruct (Z.eqb_spec size VK_WHOLE_SIZE) as [Ewhole | _]; [| reflexivity].
  (* an instance as large as [VK_WHOLE_SIZE]: one slot, which is the buffer *)
  destruct Hfit as [_ Hprod]. rewrite <- Ea in Hprod.
  unfold VK_WHOLE_SIZE in Ewhole.
  assert (Ealign : LveBuffer.alignmentSize b = UINT64_MAX) by lia.
  assert (count = 1) by (rewrite Ealign in Hprod; bounds).
  assert (index = 0) by lia. subst index count.
  rewrite Ebuf, Ealign, Ewhole. f_equal; lia.
Qed.

Lemma flushIndex_run (index : Z) (w : World) :
  LveBuffer.sizes_fit size count alignment -> 0 <= index < count ->
  let slot := {| range_memory := LveBuffer.memory b;
                 range_offset := index * LveBuffer.alignmentSize b;
                 range_size := LveBuffer.alignmentSize b |} in
  LveBuffer.flushIndex b index w
  = Returned (vkFlushMappedMemoryRanges (LveBuffer.lveDevice b) [slot],
              {| hostMemory := hostMemory w;
                 events := events w ++ [FlushMappedMemoryRanges [slot]] |}).
Proof.
  intros Hfit Hi. unfold LveBuffer.flushIndex, LveBuffer.flush.
  rewrite (index_offset _ Hfit Hi). reflexivity.
Qed.

Lemma invalidateIndex_run (index : Z) (w : World) :
  LveBuffer.sizes_fit size count alignment -> 0 <= index < count ->
  let slot := {| range_memory := LveBuffer.memory b;
                 range_offset := index * LveBuffer.alignmentSize b;
                 range_size := LveBuffer.alignmentSize b |} in
  LveBuffer.invalidateIndex b index w
  = Returned (vkInvalidateMappedMemoryRanges (LveBuffer.lveDevice b) [slot],
              {| hostMemory := hostMemory w;
                 events := events w ++ [InvalidateMappedMemoryRanges [slot]] |}).
Proof.
  intros Hfit Hi. unfold LveBuffer.invalidateIndex, LveBuffer.invalidate.
  rewrite (index_offset _ Hfit Hi). reflexivity.
Qed.

Lemma descriptorInfoForIndex_run (index : Z) :
  LveBuffer.sizes_fit size count alignment -> 0 <= index < count ->
  LveBuffer.descriptorInfoForIndex b index
  = {| info_buffer := LveBuffer.buffer b;
       info_offset := index * LveBuffer.alignmentSize b;
       info_range := LveBuffer.alignmentSize b |}.
Proof.
  intros Hfit Hi.
  unfold LveBuffer.descriptorInfoForIndex, LveBuffer.descriptorInfo.
  rewrite (index_offset _ Hfit Hi). reflexivity.
Qed.

End BufferRuns.

(** ** The constructor, [map] and [unmap] *)

Lemma new_run (dev : LveDevice) (size count usage props alignment : Z) (w : World) :
  let a := LveBuffer.getAlignment size alignment in
  let total := u64_mul a (to_u64 count) in
  LveBuffer.new dev size count usage props alignment w
  = match createBuffer dev total usage props with
    | Returned handles =>
        Returned
          ({| LveBuffer.lveDevice := dev; LveBuffer.mapped := nullptr;
              LveBuffer.buffer := fst handles; LveBuffer.memory := snd handles;
              LveBuffer.bufferSize := total; LveBuffer.instanceCount := count;
              LveBuffer.instanceSize := size; LveBuffer.alignmentSize := a;
              LveBuffer.usageFlags := usage;
              LveBuffer.memoryPropertyFlags := props |},
           {| hostMemory := hostMemory w;
              events := events w ++ [CreateBuffer total usage props] |})
    | AssertionFailed s => AssertionFailed s
    | Thrown s => Thrown s
    | UndefinedBehaviour => UndefinedBehaviour
    end.
Proof.
  unfold LveBuffer.new, bind, request, lift, ret. simpl.
  destruct (createBuffer dev _ usage props); reflexivity.
Qed.

(** The constructor returns exactly when the device creates the buffer, and
    what it returns is [constructed]. *)
Lemma new_constructed (dev : LveDevice) (size count usage props alignment : Z)
  (w : World) (b : LveBuffer.t) (w' : World) :
  is_u64 size -> is_u32 count -> is_u64 alignment ->
  LveBuffer.new dev size count usage props alignment w = Returned (b, w') ->
  LveBuffer.constructed size count alignment b
  /\ LveBuffer.mapped b = nullptr
  /\ events w' = events w ++ [CreateBuffer (LveBuffer.bufferSize b) usage props].
Proof.
  intros Hs Hn Hm. rewrite new_run.
  destruct (createBuffer dev _ usage props); try discriminate.
  intros E. injection E as <- <-. unfold LveBuffer.constructed. simpl.
  repeat split; solve [reflexivity | apply Hs | apply Hn | apply Hm].
Qed.

Lemma map_constructed (size count alignment : Z) (b b' : LveBuffer.t)
  (n offset : Z) (r : VkResult) (w w' : World) :
  LveBuffer.constructed size count alignment b ->
  LveBuffer.map b n offset w = Returned ((r, b'), w') ->
  LveBuffer.constructed size count alignment b'.
Proof.
  intros Hb. unfold LveBuffer.map, bind, assert, request, ret.
  destruct (_ && _); [| discriminate]. simpl.
  intros E. injection E as _ <- _.
  destruct (_ =? VK_SUCCESS); exact Hb.
Qed.

Lemma unmap_constructed (size count alignment : Z) (b b' : LveBuffer.t)
  (w w' : World) :
  LveBuffer.constructed size count alignment b ->
  LveBuffer.unmap b w = Returned (b', w') ->
  LveBuffer.constructed size count alignment b' /\ LveBuffer.mapped b' = nullptr.
Proof.
  intros Hb. unfold LveBuffer.unmap, bind, request, ret.
  destruct (Z.eqb_spec (LveBuffer.mapped b) nullptr) as [E0 | _]; simpl;
    intros E; injection E as <- _; split; solve [exact Hb | assumption | reflexivity].
Qed.

Lemma uniformBuffer_built :
  value_of (mappedBuffer 68 3 64) = Some uniformBuffer
  /\ trace_of (mappedBuffer 68 3 64)
     = Some [CreateBuffer 384 0 0; MapMemory 2 0 VK_WHOLE_SIZE].
Proof. split; reflexivity. Qed.

Lemma uniformBuffer_constructed : LveBuffer.constructed 68 3 64 uniformBuffer.
Proof.
  unfold LveBuffer.constructed, is_u64, is_u32.
  repeat split; solve [reflexivity | discriminate].
Defined.

Lemma uniformBuffer_fits : LveBuffer.sizes_fit 68 3 64.
Proof. split; discriminate. Defined.

(** ** The indexed operations *)

(** C1, as the code has it.  For a buffer whose size arithmetic does not
    wrap around [2^64] and an index [i] in [[0, instanceCount)]:
    [writeToIndex] copies exactly the [instanceSize] bytes at
    [i * alignmentSize]; [flushIndex], [descriptorInfoForIndex] and
    [invalidateIndex] name the whole aligned slot, [alignmentSize] bytes at
    [i * alignmentSize], padding included. *)
Theorem C1_indexed_ranges (size count alignment : Z) (b : LveBuffer.t)
  (index : Z) (data : Z -> Byte.byte) (w : World) :
  LveBuffer.constructed size count alignment b ->
  LveBuffer.sizes_fit size count alignment ->
  0 <= index < count ->
  (LveBuffer.mapped b <> nullptr ->
   LveBuffer.writeToIndex b data index w
   = Returned (tt,
       {| hostMemory :=
            copy_bytes (LveBuffer.mapped b + index * LveBuffer.alignmentSize b)
                       data size (hostMemory w);
          events := events w ++
            [Memcpy (LveBuffer.mapped b + index * LveBuffer.alignmentSize b)
                    size] |}))
  /\ LveBuffer.flushIndex b index w
     = Returned
         (vkFlushMappedMemoryRanges (LveBuffer.lveDevice b)
            [{| range_memory := LveBuffer.memory b;
                range_offset := index * LveBuffer.alignmentSize b;
                range_size := LveBuffer.alignmentSize b |}],
          {| hostMemory := hostMemory w;
             events := events w ++
               [FlushMappedMemoryRanges
                  [{| range_memory := LveBuffer.memory b;
                      range_offset := index * LveBuffer.alignmentSize b;
                      range_size := LveBuffer.alignmentSize b |}]] |})
  /\ LveBuffer.descriptorInfoForIndex b index
     = {| info_buffer := LveBuffer.buffer b;
          info_offset := index * LveBuffer.alignmentSize b;
          info_range := LveBuffer.alignmentSize b |}
  /\ LveBuffer.invalidateIndex b index w
     = Returned
         (vkInvalidateMappedMemoryRanges (LveBuffer.lveDevice b)
            [{| range_memory := LveBuffer.memory b;
                range_offset := index * LveBuffer.alignmentSize b;
                range_size := LveBuffer.alignmentSize b |}],
          {| hostMemory := hostMemory w;
             events := events w ++
               [InvalidateMappedMemoryRanges
                  [{| range_memory := LveBuffer.memory b;
                      range_offset := index * LveBuffer.alignmentSize b;
                      range_size := LveBuffer.alignmentSize b |}]] |}).
Proof.
  intros Hb Hfit Hi. repeat split.
  - intros Hmapped. erewrite writeToIndex_run by eassumption. reflexivity.
  - eapply flushIndex_run; eassumption.
  - eapply descriptorInfoForIndex_run; eassumption.
  - eapply invalidateIndex_run; eassumption.
Qed.

Lemma C1_indexed_ranges_witness :
  LveBuffer.constructed 68 3 64 uniformBuffer
  /\ LveBuffer.sizes_fit 68 3 64
  /\ LveBuffer.writeToIndex uniformBuffer testData 1 emptyWorld
     = Returned (tt, {| hostMemory := copy_bytes (4096 + 128) testData 68
                                        (hostMemory emptyWorld);
                        events := [Memcpy (4096 + 128) 68] |})
  /\ LveBuffer.descriptorInfoForIndex uniformBuffer 1
     = {| info_buffer := 1; info_offset := 128; info_range := 128 |}.
Proof.
  split; [exact uniformBuffer_constructed |].
  split; [exact uniformBuffer_fits |].
  destruct (C1_indexed_ranges 68 3 64 uniformBuffer 1 testData emptyWorld
              uniformBuffer_constructed uniformBuffer_fits ltac:(lia))
    as (Hwrite & _ & Hinfo & _).
  split; [apply Hwrite; discriminate | exact Hinfo].
Defined.

(** C1 as stated fails in three places.
    - With [instanceSize = 68], [minOffsetAlignment = 64], three instances
      and index 1, [flushIndex], [invalidateIndex] and
      [descriptorInfoForIndex] name 128 bytes at offset 128, the range
      [[128, 256)], not the 68 bytes of [[128, 196)].
    - With [instanceSize = 2^63 + 1], alignment 1 and four instances, the
      product of index 2 and the aligned size wraps: [writeToIndex] copies
      to offset 2 of the mapping, not to [2 * alignmentSize].
    - With [instanceSize = 2^64 - 1] and alignment 2 the sum in
      [getAlignment] wraps, the aligned size and the buffer size are 0, and
      [writeToIndex] at index 0 copies no byte at all. *)
Lemma C1_counterexample :
  (value_of (b <- mappedBuffer 68 3 64 ;;
             ret (LveBuffer.instanceSize b, LveBuffer.descriptorInfoForIndex b 1))
   = Some (68, {| info_buffer := 1; info_offset := 128; info_range := 128 |})
   /\ trace_of (b <- mappedBuffer 68 3 64 ;;
                LveBuffer.flushIndex b 1 ;;; LveBuffer.invalidateIndex b 1)
      = Some [CreateBuffer 384 0 0; MapMemory 2 0 VK_WHOLE_SIZE;
              FlushMappedMemoryRanges
                [{| range_memory := 2; range_offset := 128; range_size := 128 |}];
              InvalidateMappedMemoryRanges
                [{| range_memory := 2; range_offset := 128; range_size := 128 |}]]
   /\ 128 + 128 <> 128 + 68)
  /\ (value_of (b <- mappedBuffer (2 ^ 63 + 1) 4 1 ;;
                ret (LveBuffer.mapped b, LveBuffer.alignmentSize b))
      = Some (4096, 2 ^ 63 + 1)
      /\ trace_of (b <- mappedBuffer (2 ^ 63 + 1) 4 1 ;;
                   LveBuffer.writeToIndex b testData 2)
         = Some [CreateBuffer 4 0 0; MapMemory 2 0 VK_WHOLE_SIZE;
                 Memcpy (4096 + 2) (2 ^ 63 + 1)]
      /\ 2 <> 2 * (2 ^ 63 + 1))
  /\ (value_of (b <- mappedBuffer (2 ^ 64 - 1) 1 2 ;;
                ret (LveBuffer.mapped b, LveBuffer.instanceSize b,
                     LveBuffer.alignmentSize b))
      = Some (4096, 2 ^ 64 - 1, 0)
      /\ trace_of (b <- mappedBuffer (2 ^ 64 - 1) 1 2 ;;
                   LveBuffer.writeToIndex b testData 0)
         = Some [CreateBuffer 0 0 0; MapMemory 2 0 VK_WHOLE_SIZE; Memcpy 4096 0]).
Proof.
  repeat split; try (vm_compute; reflexivity); vm_compute; discriminate.
Qed.

(** ** The constructor's sizes *)

(** C2, as the code has it.  When [minOffsetAlignment] is a power of two and
    neither [instanceSize + minOffsetAlignment - 1] nor the total size
    exceeds [2^64 - 1], a constructor whose device creates the buffer
    returns a buffer with [alignmentSize = ceil (instanceSize /
    minOffsetAlignment) * minOffsetAlignment], a multiple of the alignment
    not below [instanceSize], and with [bufferSize = alignmentSize *
    instanceCount], the size it asked the device for. *)
Theorem C2_aligned_size_power_of_two (dev : LveDevice)
  (size count usage props k : Z) (w : World)
  (handles : VkBuffer * VkDeviceMemory) :
  0 < size -> 0 < count <= UINT32_MAX -> 0 <= k ->
  size + 2 ^ k - 1 <= UINT64_MAX ->
  ceil_div size (2 ^ k) * 2 ^ k * count <= UINT64_MAX ->
  createBuffer dev (ceil_div size (2 ^ k) * 2 ^ k * count) usage props
  = Returned handles ->
  exists b w',
    LveBuffer.new dev size count usage props (2 ^ k) w = Returned (b, w')
    /\ LveBuffer.alignmentSize b = ceil_div size (2 ^ k) * 2 ^ k
    /\ LveBuffer.alignmentSize b mod 2 ^ k = 0
    /\ size <= LveBuffer.alignmentSize b
    /\ LveBuffer.bufferSize b = LveBuffer.alignmentSize b * count
    /\ events w' = events w ++
         [CreateBuffer (LveBuffer.alignmentSize b * count) usage props].
Proof.
  intros Hs Hn Hk Hsum Hprod Hdev.
  assert (Hp : 0 < 2 ^ k) by (apply Z.pow_pos_nonneg; lia).
  destruct (ceil_div_least size (2 ^ k) Hp) as [[Hle _] Hmod].
  assert (Etotal : u64_mul (ceil_div size (2 ^ k) * 2 ^ k) (to_u64 count)
                   = ceil_div size (2 ^ k) * 2 ^ k * count).
  { unfold u64_mul, to_u64. rewrite (wrap64_small count) by bounds.
    apply wrap64_small. nia. }
  rewrite new_run, getAlignment_pow2 by lia.
  rewrite Etotal, Hdev.
  do 2 eexists. split; [reflexivity |]. simpl.
  repeat split; solve [reflexivity | assumption].
Qed.

Lemma C2_aligned_size_power_of_two_witness :
  exists b w',
    LveBuffer.new testDevice 68 3 0 0 (2 ^ 6) emptyWorld = Returned (b, w')
    /\ LveBuffer.alignmentSize b = ceil_div 68 (2 ^ 6) * 2 ^ 6
    /\ LveBuffer.alignmentSize b mod 2 ^ 6 = 0
    /\ 68 <= LveBuffer.alignmentSize b
    /\ LveBuffer.bufferSize b = LveBuffer.alignmentSize b * 3
    /\ events w' = events emptyWorld ++
         [CreateBuffer (LveBuffer.alignmentSize b * 3) 0 0].
Proof.
  apply (C2_aligned_size_power_of_two testDevice 68 3 0 0 6 emptyWorld (1, 2)).
  - lia.
  - unfold UINT32_MAX. lia.
  - lia.
  - discriminate.
  - discriminate.
  - reflexivity.
Defined.

(** C2 as stated fails in three places.
    - An alignment that is not a power of two: with [instanceSize = 5] and
      [minOffsetAlignment = 3] the mask gives 5, which is neither
      [ceil (5 / 3) * 3 = 6] nor a multiple of 3.
    - A sum that wraps: with [instanceSize = 2^64 - 1] and alignment 2 the
      aligned size is 0, below the instance size.
    - A product that wraps: with [instanceSize = 2^63], alignment 1 and two
      instances the buffer size is 0, not [2 * 2^63]. *)
Lemma C2_counterexample :
  (value_of (b <- LveBuffer.new testDevice 5 1 0 0 3 ;;
             ret (LveBuffer.alignmentSize b, LveBuffer.alignmentSize b mod 3))
   = Some (5, 2)
   /\ ceil_div 5 3 * 3 = 6)
  /\ (value_of (b <- LveBuffer.new testDevice (2 ^ 64 - 1) 1 0 0 2 ;;
                ret (LveBuffer.instanceSize b, LveBuffer.alignmentSize b))
      = Some (2 ^ 64 - 1, 0))
  /\ (value_of (b <- LveBuffer.new testDevice (2 ^ 63) 2 0 0 1 ;;
                ret (LveBuffer.alignmentSize b, LveBuffer.bufferSize b))
      = Some (2 ^ 63, 0)
      /\ trace_of (LveBuffer.new testDevice (2 ^ 63) 2 0 0 1)
         = Some [CreateBuffer 0 0 0]
      /\ 0 <> 2 ^ 63 * 2).
Proof.
  repeat split; try (vm_compute; reflexivity); vm_compute; discriminate.
Qed.

(** ** Writes at different indices *)

(** C3, as the code has it.  For a mapped buffer whose size arithmetic does
    not wrap around [2^64] and two different indices below [instanceCount],
    [writeToIndex] copies [instanceSize] bytes to
    [mapped + i * alignmentSize] and to [mapped + j * alignmentSize]; the two
    ranges share no byte, and the second write leaves what the first wrote. *)
Theorem C3_writes_disjoint (size count alignment : Z) (b : LveBuffer.t)
  (i j : Z) (di dj : Z -> Byte.byte) (w : World) :
  LveBuffer.constructed size count alignment b ->
  LveBuffer.sizes_fit size count alignment ->
  LveBuffer.mapped b <> nullptr ->
  0 <= i < count -> 0 <= j < count -> i <> j ->
  exists w1 w2,
    LveBuffer.writeToIndex b di i w = Returned (tt, w1)
    /\ events w1 = events w ++
         [Memcpy (LveBuffer.mapped b + i * LveBuffer.alignmentSize b) size]
    /\ LveBuffer.writeToIndex b dj j w1 = Returned (tt, w2)
    /\ events w2 = events w1 ++
         [Memcpy (LveBuffer.mapped b + j * LveBuffer.alignmentSize b) size]
    /\ disjoint (LveBuffer.mapped b + i * LveBuffer.alignmentSize b) size
                (LveBuffer.mapped b + j * LveBuffer.alignmentSize b) size
    /\ (forall x,
          in_range (LveBuffer.mapped b + i * LveBuffer.alignmentSize b) size x ->
          hostMemory w2 x
          = di (x - (LveBuffer.mapped b + i * LveBuffer.alignmentSize b))).
Proof.
  intros Hb Hfit Hmapped Hi Hj Hij.
  pose proof (constructed_alignment_u64 size count alignment b Hb Hfit) as Ha.
  assert (Hdisj : disjoint (LveBuffer.mapped b + i * LveBuffer.alignmentSize b) size
                    (LveBuffer.mapped b + j * LveBuffer.alignmentSize b) size).
  { intros x [Hx1 Hx2]. unfold in_range in *. nia. }
  do 2 eexists.
  split; [erewrite writeToIndex_run by eassumption; reflexivity |].
  split; [reflexivity |].
  split; [erewrite writeToIndex_run by eassumption; reflexivity |].
  split; [reflexivity |].
  split; [exact Hdisj |].
  intros x Hx. simpl. unfold copy_bytes.
  destruct ((_ <=? x) && (x <? _ + j * _ + size)) eqn:Ein.
  - exfalso. apply (Hdisj x). split; [exact Hx |]. unfold in_range. lia.
  - unfold in_range in Hx.
    destruct (Z.leb_spec (LveBuffer.mapped b + i * LveBuffer.alignmentSize b) x);
      [| lia].
    destruct (Z.ltb_spec x
                (LveBuffer.mapped b + i * LveBuffer.alignmentSize b + size));
      [reflexivity | lia].
Qed.

Lemma C3_writes_disjoint_witness :
  disjoint (4096 + 0 * 128) 68 (4096 + 2 * 128) 68.
Proof.
  destruct (C3_writes_disjoint 68 3 64 uniformBuffer 0 2 testData testData
              emptyWorld uniformBuffer_constructed uniformBuffer_fits
              ltac:(discriminate) ltac:(lia) ltac:(lia) ltac:(lia))
    as (w1 & w2 & _ & _ & _ & _ & H & _).
  exact H.
Defined.

(** C3 as stated fails when the size arithmetic wraps.
    - With [instanceSize = 2^63 + 1], alignment 1 and four instances the
      buffer size wraps to 4 and the offset of index 2 wraps to 2: the
      writes at indices 0 and 2 start at [mapped] and [mapped + 2] and both
      contain the byte at [mapped + 2].
    - With [instanceSize = 2^63 + 10], alignment [2^63 + 2] and two instances
      the sum in [getAlignment] wraps and the aligned size is 10, below the
      instance size: the writes at indices 0 and 1 start 10 bytes apart and
      both contain the byte at [mapped + 10]. *)
Lemma C3_counterexample :
  (value_of (b <- mappedBuffer (2 ^ 63 + 1) 4 1 ;;
             ret (LveBuffer.instanceCount b, LveBuffer.bufferSize b))
   = Some (4, 4)
   /\ trace_of (b <- mappedBuffer (2 ^ 63 + 1) 4 1 ;;
                LveBuffer.writeToIndex b testData 0 ;;;
                LveBuffer.writeToIndex b testData 2)
      = Some [CreateBuffer 4 0 0; MapMemory 2 0 VK_WHOLE_SIZE;
              Memcpy 4096 (2 ^ 63 + 1); Memcpy 4098 (2 ^ 63 + 1)]
   /\ ~ disjoint 4096 (2 ^ 63 + 1) 4098 (2 ^ 63 + 1))
  /\ (value_of (b <- mappedBuffer (2 ^ 63 + 10) 2 (2 ^ 63 + 2) ;;
                ret (LveBuffer.instanceCount b, LveBuffer.alignmentSize b))
      = Some (2, 10)
      /\ trace_of (b <- mappedBuffer (2 ^ 63 + 10) 2 (2 ^ 63 + 2) ;;
                   LveBuffer.writeToIndex b testData 0 ;;;
                   LveBuffer.writeToIndex b testData 1)
         = Some [CreateBuffer 20 0 0; MapMemory 2 0 VK_WHOLE_SIZE;
                 Memcpy 4096 (2 ^ 63 + 10); Memcpy 4106 (2 ^ 63 + 10)]
      /\ ~ disjoint 4096 (2 ^ 63 + 10) 4106 (2 ^ 63 + 10)).
Proof.
  split; (split; [vm_compute; reflexivity |]); (split; [vm_compute; reflexivity |]).
  - intros H. apply (H 4098). unfold in_range. lia.
  - intros H. apply (H 4106). unfold in_range. lia.
Qed.

(** ** The scenario of the design document *)

(** C8.  With [instanceSize = 68], [minOffsetAlignment = 64] and three
    instances the constructor computes [alignmentSize = 128] and asks the
    device for [bufferSize = 384] bytes; on such a buffer, once mapped,
    [writeToIndex (data, 1)] copies 68 bytes to offset 128 of the mapping and
    changes no byte outside [[128, 196)]. *)
Theorem C8_scenario_68_64_3 (dev : LveDevice) (usage props : VkFlags) (w : World)
  (handles : VkBuffer * VkDeviceMemory) :
  createBuffer dev 384 usage props = Returned handles ->
  (exists b w',
     LveBuffer.new dev 68 3 usage props 64 w = Returned (b, w')
     /\ LveBuffer.alignmentSize b = 128
     /\ LveBuffer.bufferSize b = 384
     /\ events w' = events w ++ [CreateBuffer 384 usage props])
  /\ (forall (b : LveBuffer.t) (data : Z -> Byte.byte) (w0 : World),
        LveBuffer.constructed 68 3 64 b ->
        LveBuffer.mapped b <> nullptr ->
        exists w1,
          LveBuffer.writeToIndex b data 1 w0 = Returned (tt, w1)
          /\ events w1 = events w0 ++ [Memcpy (LveBuffer.mapped b + 128) 68]
          /\ (forall x,
                in_range (LveBuffer.mapped b + 128) 68 x ->
                hostMemory w1 x = data (x - (LveBuffer.mapped b + 128)))
          /\ (forall x,
                ~ (LveBuffer.mapped b + 128 <= x < LveBuffer.mapped b + 196) ->
                hostMemory w1 x = hostMemory w0 x)).
Proof.
  intros Hdev. split.
  - rewrite new_run.
    change (LveBuffer.getAlignment 68 64) with 128.
    change (u64_mul 128 (to_u64 3)) with 384.
    rewrite Hdev. do 2 eexists. repeat split.
  - intros b data w0 Hb Hmapped.
    assert (Ea : LveBuffer.alignmentSize b = 128)
      by (destruct Hb as (_ & _ & _ & _ & _ & Ea & _); exact Ea).
    eexists.
    split; [erewrite writeToIndex_run
              by solve [exact Hb | exact uniformBuffer_fits | exact Hmapped | lia];
            reflexivity |].
    rewrite Ea. simpl.
    split; [reflexivity |].
    split; intros x Hx.
    + now apply copy_bytes_inside.
    + apply copy_bytes_outside. unfold in_range. lia.
Qed.

Lemma C8_scenario_68_64_3_witness :
  (exists b w',
     LveBuffer.new testDevice 68 3 0 0 64 emptyWorld = Returned (b, w')
     /\ LveBuffer.alignmentSize b = 128
     /\ LveBuffer.bufferSize b = 384
     /\ events w' = [CreateBuffer 384 0 0])
  /\ (exists w1,
        LveBuffer.writeToIndex uniformBuffer testData 1 emptyWorld
        = Returned (tt, w1)
        /\ events w1 = [Memcpy (4096 + 128) 68]).
Proof.
  destruct (C8_scenario_68_64_3 testDevice 0 0 emptyWorld (1, 2) eq_refl)
    as [Hnew Hwrite].
  split; [exact Hnew |].
  destruct (Hwrite uniformBuffer testData emptyWorld uniformBuffer_constructed
              ltac:(discriminate)) as (w1 & H1 & H2 & _).
  exists w1. split; [exact H1 | exact H2].
Defined.

(** ** [getAlignmentSize] *)

(** C9.  [getAlignmentSize] returns [instanceSize].  Whenever the aligned
    size exceeds the instance size it therefore differs from
    [alignmentSize], the stride of the indexed operations: at every index
    [0 < i < instanceCount] of a buffer whose sizes fit, each of them uses
    the offset [i * alignmentSize], which is not [i * getAlignmentSize ()]. *)
Theorem C9_getAlignmentSize_returns_instanceSize (size count alignment : Z)
  (b : LveBuffer.t) :
  LveBuffer.constructed size count alignment b ->
  LveBuffer.getAlignmentSize b = size
  /\ (size < LveBuffer.alignmentSize b ->
      LveBuffer.getAlignmentSize b <> LveBuffer.alignmentSize b
      /\ forall (index : Z) (data : Z -> Byte.byte) (w : World),
           LveBuffer.sizes_fit size count alignment -> 0 < index < count ->
           index * LveBuffer.alignmentSize b <> index * LveBuffer.getAlignmentSize b
           /\ info_offset (LveBuffer.descriptorInfoForIndex b index)
              = index * LveBuffer.alignmentSize b
           /\ (exists r w',
                 LveBuffer.flushIndex b index w = Returned (r, w')
                 /\ events w' = events w ++
                      [FlushMappedMemoryRanges
                         [{| range_memory := LveBuffer.memory b;
                             range_offset := index * LveBuffer.alignmentSize b;
                             range_size := LveBuffer.alignmentSize b |}]])
           /\ (exists r w',
                 LveBuffer.invalidateIndex b index w = Returned (r, w')
                 /\ events w' = events w ++
                      [InvalidateMappedMemoryRanges
                         [{| range_memory := LveBuffer.memory b;
                             range_offset := index * LveBuffer.alignmentSize b;
                             range_size := LveBuffer.alignmentSize b |}]])
           /\ (LveBuffer.mapped b <> nullptr ->
               exists w',
                 LveBuffer.writeToIndex b data index w = Returned (tt, w')
                 /\ events w' = events w ++
                      [Memcpy (LveBuffer.mapped b
                               + index * LveBuffer.alignmentSize b) size])).
Proof.
  intros Hb.
  assert (Eget : LveBuffer.getAlignmentSize b = size)
    by (destruct Hb as (_ & _ & _ & Es & _); exact Es).
  split; [exact Eget |].
  intros Hlt. rewrite Eget. split; [lia |].
  intros index data w Hfit Hi.
  split; [nia |].
  split; [erewrite descriptorInfoForIndex_run by solve [eassumption | lia];
          reflexivity |].
  split; [do 2 eexists; split;
          [eapply flushIndex_run; solve [eassumption | lia] | reflexivity] |].
  split; [do 2 eexists; split;
          [eapply invalidateIndex_run; solve [eassumption | lia] | reflexivity] |].
  intros Hmapped. eexists. split.
  - erewrite writeToIndex_run by solve [eassumption | lia]. reflexivity.
  - reflexivity.
Qed.

Lemma C9_getAlignmentSize_returns_instanceSize_witness :
  LveBuffer.getAlignmentSize uniformBuffer = 68
  /\ LveBuffer.alignmentSize uniformBuffer = 128
  /\ info_offset (LveBuffer.descriptorInfoForIndex uniformBuffer 2) = 2 * 128
  /\ 2 * 128 <> 2 * LveBuffer.getAlignmentSize uniformBuffer.
Proof.
  destruct (C9_getAlignmentSize_returns_instanceSize 68 3 64 uniformBuffer
              uniformBuffer_constructed)
    as [Hget Hstride].
  destruct (Hstride ltac:(simpl; lia)) as [_ Hops].
  destruct (Hops 2 testData emptyWorld uniformBuffer_fits ltac:(lia))
    as (Hne & Hoff & _).
  split; [exact Hget |]. split; [reflexivity |].
  split; [exact Hoff | exact Hne].
Defined.

(** ** [writeToBuffer] *)

Lemma writeToBuffer_unmapped (b : LveBuffer.t) (data : Z -> Byte.byte)
  (size offset : Z) (w : World) :
  LveBuffer.mapped b = nullptr ->
  LveBuffer.writeToBuffer b data size offset w
  = AssertionFailed "Cannot copy to unmapped buffer".
Proof.
  intros E. unfold LveBuffer.writeToBuffer, bind, assert.
  rewrite E. reflexivity.
Qed.

(** C5.  On a mapped buffer [writeToBuffer] returns after one [memcpy] of
    the data into the mapping: the whole buffer from its start for
    [VK_WHOLE_SIZE], [size] bytes at [offset] otherwise.  On an unmapped
    buffer the assertion fails and nothing is copied: the call does not
    return, whatever the arguments. *)
Theorem C5_writeToBuffer_requires_mapping (b : LveBuffer.t)
  (data : Z -> Byte.byte) (size offset : Z) (w : World) :
  (LveBuffer.mapped b <> nullptr ->
   exists dst n,
     (dst, n) = (if size =? VK_WHOLE_SIZE
                 then (LveBuffer.mapped b, LveBuffer.bufferSize b)
                 else (LveBuffer.mapped b + offset, size))
     /\ LveBuffer.writeToBuffer b data size offset w
        = Returned (tt, {| hostMemory := copy_bytes dst data n (hostMemory w);
                           events := events w ++ [Memcpy dst n] |})
     /\ (forall x, in_range dst n x ->
                   copy_bytes dst data n (hostMemory w) x = data (x - dst))
     /\ (forall x, ~ in_range dst n x ->
                   copy_bytes dst data n (hostMemory w) x = hostMemory w x))
  /\ (LveBuffer.mapped b = nullptr ->
      LveBuffer.writeToBuffer b data size offset w
      = AssertionFailed "Cannot copy to unmapped buffer"
      /\ forall w', LveBuffer.writeToBuffer b data size offset w
                    <> Returned (tt, w')).
Proof.
  split.
  - intros Hmapped. rewrite writeToBuffer_run by exact Hmapped.
    destruct (size =? VK_WHOLE_SIZE); do 2 eexists;
      (split; [reflexivity |]); (split; [reflexivity |]); split; intros x Hx;
      solve [now apply copy_bytes_inside | now apply copy_bytes_outside].
  - intros Hnull. rewrite writeToBuffer_unmapped by exact Hnull.
    split; [reflexivity | discriminate].
Qed.

Lemma C5_writeToBuffer_requires_mapping_witness :
  LveBuffer.writeToBuffer uniformBuffer testData 68 128 emptyWorld
  = Returned (tt, {| hostMemory := copy_bytes (4096 + 128) testData 68
                                     (hostMemory emptyWorld);
                     events := [Memcpy (4096 + 128) 68] |})
  /\ LveBuffer.writeToBuffer unmappedBuffer testData 68 128 emptyWorld
     = AssertionFailed "Cannot copy to unmapped buffer".
Proof.
  split.
  - destruct (C5_writeToBuffer_requires_mapping uniformBuffer testData 68 128
                emptyWorld) as [Hmapped _].
    destruct (Hmapped ltac:(discriminate)) as (dst & n & E & Hrun & _).
    injection E as -> ->. exact Hrun.
  - destruct (C5_writeToBuffer_requires_mapping unmappedBuffer testData 68 128
                emptyWorld) as [_ Hnull].
    exact (proj1 (Hnull eq_refl)).
Defined.

(** C10.  On a mapped buffer [writeToBuffer] with [size = VK_WHOLE_SIZE]
    copies [bufferSize] bytes to the start of the mapping, whatever the
    offset given; with any other size it copies [size] bytes to
    [mapped + offset]. *)
Theorem C10_whole_size_ignores_offset (b : LveBuffer.t) (data : Z -> Byte.byte)
  (offset : Z) (w : World) :
  LveBuffer.mapped b <> nullptr ->
  LveBuffer.writeToBuffer b data VK_WHOLE_SIZE offset w
  = Returned (tt, {| hostMemory := copy_bytes (LveBuffer.mapped b) data
                                     (LveBuffer.bufferSize b) (hostMemory w);
                     events := events w ++
                       [Memcpy (LveBuffer.mapped b) (LveBuffer.bufferSize b)] |})
  /\ (forall offset',
        LveBuffer.writeToBuffer b data VK_WHOLE_SIZE offset w
        = LveBuffer.writeToBuffer b data VK_WHOLE_SIZE offset' w)
  /\ (forall size,
        size <> VK_WHOLE_SIZE ->
        LveBuffer.writeToBuffer b data size offset w
        = Returned (tt, {| hostMemory := copy_bytes (LveBuffer.mapped b + offset)
                                           data size (hostMemory w);
                           events := events w ++
                             [Memcpy (LveBuffer.mapped b + offset) size] |})).
Proof.
  intros Hmapped. split; [| split].
  - rewrite writeToBuffer_run by exact Hmapped. reflexivity.
  - intros offset'. now rewrite !writeToBuffer_run by exact Hmapped.
  - intros size Hsize. rewrite writeToBuffer_run by exact Hmapped.
    destruct (Z.eqb_spec size VK_WHOLE_SIZE); [contradiction | reflexivity].
Qed.

Lemma C10_whole_size_ignores_offset_witness :
  LveBuffer.writeToBuffer uniformBuffer testData VK_WHOLE_SIZE 128 emptyWorld
  = Returned (tt, {| hostMemory := copy_bytes 4096 testData 384
                                     (hostMemory emptyWorld);
                     events := [Memcpy 4096 384] |})
  /\ LveBuffer.writeToBuffer uniformBuffer testData 68 128 emptyWorld
     = Returned (tt, {| hostMemory := copy_bytes (4096 + 128) testData 68
                                        (hostMemory emptyWorld);
                        events := [Memcpy (4096 + 128) 68] |}).
Proof.
  destruct (C10_whole_size_ignores_offset uniformBuffer testData 128 emptyWorld
              ltac:(discriminate)) as (Hwhole & _ & Hsized).
  split; [exact Hwhole | exact (Hsized 68 ltac:(discriminate))].
Defined.

(** ** The renderer's accessors *)

(** C6.  With no frame in progress [getCurrentCommandBuffer] and
    [getFrameIndex] stop on their assertion.  With a frame in progress
    [getFrameIndex] returns [currentFrameIndex] and
    [getCurrentCommandBuffer] returns the element of [commandBuffers] at
    [currentFrameIndex], which exists when the index is inside the vector. *)
Theorem C6_accessors_need_frame_started (r : LveRenderer.t) :
  (LveRenderer.isFrameStarted r = false ->
   LveRenderer.getCurrentCommandBuffer r
   = AssertionFailed "Cannot get command buffer when frame not in progress"
   /\ LveRenderer.getFrameIndex r
      = AssertionFailed "Cannot get frame index when frame not in progress")
  /\ (LveRenderer.isFrameStarted r = true ->
      LveRenderer.getFrameIndex r = Returned (LveRenderer.currentFrameIndex r)
      /\ LveRenderer.getCurrentCommandBuffer r
         = vector_at (LveRenderer.commandBuffers r)
                     (LveRenderer.currentFrameIndex r)
      /\ (0 <= LveRenderer.currentFrameIndex r
               < Z.of_nat (length (LveRenderer.commandBuffers r)) ->
          exists commandBuffer,
            nth_error (LveRenderer.commandBuffers r)
                      (Z.to_nat (LveRenderer.currentFrameIndex r))
            = Some commandBuffer
            /\ LveRenderer.getCurrentCommandBuffer r = Returned commandBuffer)).
Proof.
  unfold LveRenderer.getCurrentCommandBuffer, LveRenderer.getFrameIndex.
  split; intros ->; [split; reflexivity |].
  split; [reflexivity |]. split; [reflexivity |].
  intros [Hlo Hhi]. unfold vector_at.
  destruct (Z.leb_spec 0 (LveRenderer.currentFrameIndex r)); [| lia].
  destruct (Z.ltb_spec (LveRenderer.currentFrameIndex r)
              (Z.of_nat (length (LveRenderer.commandBuffers r)))); [| lia].
  simpl.
  destruct (nth_error (LveRenderer.commandBuffers r)
              (Z.to_nat (LveRenderer.currentFrameIndex r))) as [c |] eqn:E.
  - exists c. split; reflexivity.
  - apply nth_error_None in E. lia.
Qed.

Lemma C6_accessors_need_frame_started_witness :
  LveRenderer.getCurrentCommandBuffer idleRenderer
  = AssertionFailed "Cannot get command buffer when frame not in progress"
  /\ LveRenderer.getFrameIndex idleRenderer
     = AssertionFailed "Cannot get frame index when frame not in progress"
  /\ LveRenderer.getFrameIndex activeRenderer = Returned 1
  /\ LveRenderer.getCurrentCommandBuffer activeRenderer = Returned 72.
Proof.
  destruct (C6_accessors_need_frame_started idleRenderer) as [Hidle _].
  destruct (C6_accessors_need_frame_started activeRenderer) as [_ Hactive].
  destruct (Hidle eq_refl) as [H1 H2].
  destruct (Hactive eq_refl) as (H3 & _ & H4).
  destruct (H4 ltac:(simpl; lia)) as (c & Hc & Hget).
  injection Hc as <-.
  repeat split; assumption.
Defined.

(** ** Format compatibility of two swap chains *)

(** C7.  [compareSwapFormats] answers true exactly when the two chains have
    the same colour format and the same depth format.  No other member is
    looked at: a chain that differs from [a] in extent, image count or
    anything else but the two formats gets the answers [a] gets. *)
Theorem C7_compareSwapFormats_iff_formats_match (a a' b : LveSwapChain.t) :
  (LveSwapChain.compareSwapFormats a b = true
   <-> (LveSwapChain.swapChainImageFormat a = LveSwapChain.swapChainImageFormat b
        /\ LveSwapChain.swapChainDepthFormat a
           = LveSwapChain.swapChainDepthFormat b))
  /\ (LveSwapChain.swapChainImageFormat a' = LveSwapChain.swapChainImageFormat a ->
      LveSwapChain.swapChainDepthFormat a' = LveSwapChain.swapChainDepthFormat a ->
      LveSwapChain.compareSwapFormats a' b = LveSwapChain.compareSwapFormats a b
      /\ LveSwapChain.compareSwapFormats b a' = LveSwapChain.compareSwapFormats b a).
Proof.
  unfold LveSwapChain.compareSwapFormats. split.
  - rewrite andb_true_iff, !Z.eqb_eq. intuition congruence.
  - intros -> ->. split; reflexivity.
Qed.

Lemma C7_compareSwapFormats_iff_formats_match_witness :
  LveSwapChain.swapChainExtent resizedChain <> LveSwapChain.swapChainExtent testChain
  /\ LveSwapChain.imageCount resizedChain <> LveSwapChain.imageCount testChain
  /\ LveSwapChain.compareSwapFormats resizedChain testChain = true
  /\ LveSwapChain.compareSwapFormats testChain resizedChain = true.
Proof.
  split; [discriminate |]. split; [discriminate |].
  destruct (C7_compareSwapFormats_iff_formats_match testChain resizedChain testChain)
    as [_ Hsame].
  destruct (Hsame eq_refl eq_refl) as [H1 H2].
  split; [exact H1 | exact H2].
Defined.

(** ** The frame index of the swap chain *)

Lemma vector_at_inside {A : Type} (v : list A) (i : Z) :
  0 <= i < Z.of_nat (length v) -> exists a, vector_at v i = Returned a.
Proof.
  intros [Hlo Hhi]. unfold vector_at.
  destruct (Z.leb_spec 0 i); [| lia].
  destruct (Z.ltb_spec i (Z.of_nat (length v))); [| lia]. simpl.
  destruct (nth_error v (Z.to_nat i)) as [a |] eqn:E.
  - now exists a.
  - apply nth_error_None in E. lia.
Qed.

Lemma replace_nth_length {A : Type} (n : nat) (a : A) (v : list A) :
  length (replace_nth n a v) = length v.
Proof.
  revert n. induction v as [| x v IH]; intros [| n]; simpl; congruence.
Qed.

Lemma vector_set_inside {A : Type} (v : list A) (i : Z) (a : A) :
  0 <= i < Z.of_nat (length v) ->
  exists v', vector_set v i a = Returned v' /\ length v' = length v.
Proof.
  intros [Hlo Hhi]. unfold vector_set.
  destruct (Z.leb_spec 0 i); [| lia].
  destruct (Z.ltb_spec i (Z.of_nat (length v))); [| lia]. simpl.
  eexists. split; [reflexivity | apply replace_nth_length].
Qed.

Lemma slot_cycle_succ (start : Z) (n : nat) :
  0 <= start < LveSwapChain.MAX_FRAMES_IN_FLIGHT ->
  LveSwapChain.slot_cycle start (S n)
  = start :: LveSwapChain.slot_cycle
               ((start + 1) mod LveSwapChain.MAX_FRAMES_IN_FLIGHT) n.
Proof.
  intros Hstart. unfold LveSwapChain.slot_cycle.
  simpl seq. rewrite <- seq_shift. cbn [List.map]. rewrite List.map_map. f_equal.
  - rewrite Z.add_0_r. apply Z.mod_small. exact Hstart.
  - apply List.map_ext. intros k.
    rewrite Zplus_mod_idemp_l. f_equal. lia.
Qed.

(** One submission on a ready chain with an image of the chain: it returns
    what the present answered, leaves the chain ready and moves the frame
    index one slot on. *)
Lemma submitCommandBuffers_run (sc : LveSwapChain.t) (buffers : VkCommandBuffer)
  (imageIndex : Z) (w : World) :
  LveSwapChain.ready sc ->
  0 <= imageIndex < LveSwapChain.imageCount sc ->
  exists result sc' w' before renderFinished,
    LveSwapChain.submitCommandBuffers sc buffers imageIndex w
    = Returned ((result, sc'), w')
    /\ events w' = before ++ [QueuePresent renderFinished imageIndex]
    /\ result = vkQueuePresentKHR (LveSwapChain.device sc) before
                  renderFinished imageIndex
    /\ LveSwapChain.currentFrame sc'
       = (LveSwapChain.currentFrame sc + 1) mod LveSwapChain.MAX_FRAMES_IN_FLIGHT
    /\ LveSwapChain.ready sc'
    /\ LveSwapChain.imageCount sc' = LveSwapChain.imageCount sc.
Proof.
  intros (Hframe & Hia & Hrf & Hff & Himg) Hidx.
  unfold LveSwapChain.imageCount in Hidx.
  destruct (vector_at_inside (LveSwapChain.imagesInFlight sc) imageIndex)
    as [inUse E1]; [rewrite Himg; exact Hidx |].
  destruct (vector_at_inside (LveSwapChain.inFlightFences sc)
              (LveSwapChain.currentFrame sc)) as [fence E2];
    [rewrite Hff; exact Hframe |].
  destruct (vector_set_inside (LveSwapChain.imagesInFlight sc) imageIndex fence)
    as (marked & E3 & Hlen); [rewrite Himg; exact Hidx |].
  destruct (vector_at_inside (LveSwapChain.imageAvailableSemaphores sc)
              (LveSwapChain.currentFrame sc)) as [available E4];
    [rewrite Hia; exact Hframe |].
  destruct (vector_at_inside (LveSwapChain.renderFinishedSemaphores sc)
              (LveSwapChain.currentFrame sc)) as [finished E5];
    [rewrite Hrf; exact Hframe |].
  unfold LveSwapChain.submitCommandBuffers, bind, lift.
  rewrite E1.
  destruct (negb (inUse =? VK_NULL_HANDLE)); unfold request, ret;
    rewrite E2, E3, E4, E5; simpl;
    do 5 eexists; (split; [reflexivity |]); (split; [reflexivity |]);
    (split; [reflexivity |]); (split; [reflexivity |]);
    (split; [| reflexivity]);
    unfold LveSwapChain.ready; simpl;
    (repeat split; try assumption; try congruence);
    apply Z.mod_pos_bound; reflexivity.
Qed.

(** C4.  On a ready chain, a run of submissions whose image indices are
    images of the chain returns, and the frame slots it used are
    [currentFrame, currentFrame + 1, ...] modulo [MAX_FRAMES_IN_FLIGHT]: the
    index moves one slot on at each submission, whatever status the device
    gave the present, and that status is what the submission returns. *)
Theorem C4_frame_index_cycles (sc : LveSwapChain.t)
  (frames : list (VkCommandBuffer * Z)) (w : World) :
  LveSwapChain.ready sc ->
  Forall (fun frame => 0 <= snd frame < LveSwapChain.imageCount sc) frames ->
  (exists log sc' w',
     LveSwapChain.submitFrames sc frames w = Returned ((log, sc'), w')
     /\ List.map fst log
        = LveSwapChain.slot_cycle (LveSwapChain.currentFrame sc) (length frames)
     /\ LveSwapChain.currentFrame sc'
        = (LveSwapChain.currentFrame sc + Z.of_nat (length frames))
          mod LveSwapChain.MAX_FRAMES_IN_FLIGHT
     /\ LveSwapChain.ready sc')
  /\ (forall buffers imageIndex,
        0 <= imageIndex < LveSwapChain.imageCount sc ->
        exists result sc' w' before renderFinished,
          LveSwapChain.submitCommandBuffers sc buffers imageIndex w
          = Returned ((result, sc'), w')
          /\ events w' = before ++ [QueuePresent renderFinished imageIndex]
          /\ result = vkQueuePresentKHR (LveSwapChain.device sc) before
                        renderFinished imageIndex
          /\ LveSwapChain.currentFrame sc'
             = (LveSwapChain.currentFrame sc + 1)
               mod LveSwapChain.MAX_FRAMES_IN_FLIGHT).
Proof.
  intros Hready Hframes. split.
  - revert sc w Hready Hframes.
    induction frames as [| [buffers imageIndex] rest IH]; intros sc w Hready Hframes.
    + exists [], sc, w.
      split; [reflexivity |]. split; [reflexivity |]. split; [| exact Hready].
      simpl. rewrite Z.add_0_r. symmetry. apply Z.mod_small. apply Hready.
    + inversion Hframes as [| ? ? Hhead Hrest]; subst.
      destruct (submitCommandBuffers_run sc buffers imageIndex w Hready Hhead)
        as (result & sc1 & w1 & before & finished & Hrun & _ & _ & Hnext & Hready1
            & Hcount).
      rewrite <- Hcount in Hrest.
      destruct (IH sc1 w1 Hready1 Hrest) as (log & sc' & w' & Hrest_run & Hlog
                                              & Hlast & Hready').
      exists ((LveSwapChain.currentFrame sc, result) :: log), sc', w'.
      split.
      { simpl. unfold bind at 1. rewrite Hrun. simpl.
        unfold bind at 1. rewrite Hrest_run. reflexivity. }
      split.
      { simpl List.map. simpl length.
        rewrite slot_cycle_succ by apply Hready.
        rewrite Hlog, Hnext. reflexivity. }
      split; [| exact Hready'].
      rewrite Hlast, Hnext. simpl length.
      rewrite Zplus_mod_idemp_l. f_equal. lia.
  - intros buffers imageIndex Hidx.
    destruct (submitCommandBuffers_run sc buffers imageIndex w Hready Hidx)
      as (result & sc1 & w1 & before & finished & Hrun & Hev & Hres & Hnext & _).
    exists result, sc1, w1, before, finished. repeat split; assumption.
Qed.

Lemma testChain_ready : LveSwapChain.ready testChain.
Proof.
  unfold LveSwapChain.ready. simpl.
  repeat split; solve [reflexivity | discriminate].
Defined.

Lemma C4_frame_index_cycles_witness :
  exists log sc' w',
    LveSwapChain.submitFrames testChain [(1, 0); (2, 1); (3, 2); (4, 0); (5, 1)]
      emptyWorld = Returned ((log, sc'), w')
    /\ List.map fst log = LveSwapChain.slot_cycle 0 5
    /\ LveSwapChain.currentFrame sc' = (0 + 5) mod 2.
Proof.
  destruct (C4_frame_index_cycles testChain
              [(1, 0); (2, 1); (3, 2); (4, 0); (5, 1)] emptyWorld
              testChain_ready)
    as [(log & sc' & w' & Hrun & Hlog & Hlast & _) _].
  - repeat constructor; simpl; discriminate.
  - exists log, sc', w'. repeat split; assumption.
Defined.

(** The five frames of the design document's scenario on a chain of three
    images: slots 0, 1, 0, 1, 0, under presents that answered out-of-date,
    success and suboptimal. *)
Lemma testChain_five_frames :
  value_of (r <- LveSwapChain.submitFrames testChain
                   [(1, 0); (2, 1); (3, 2); (4, 0); (5, 1)] ;;
            ret (fst r, LveSwapChain.currentFrame (snd r)))
  = Some ([(0, VK_ERROR_OUT_OF_DATE_KHR); (1, VK_ERROR_OUT_OF_DATE_KHR);
           (0, VK_ERROR_OUT_OF_DATE_KHR); (1, VK_SUCCESS);
           (0, VK_SUBOPTIMAL_KHR)], 1).
Proof. vm_compute. reflexivity. Qed.

(** * Further properties of the buffer *)

(** ** More on [getAlignment] *)

Lemma land_lnot_clears (x y : Z) : Z.land (Z.land x (Z.lnot y)) y = 0.
Proof.
  apply Z.bits_inj'. intros i Hi.
  rewrite !Z.land_spec, Z.lnot_spec, Z.bits_0 by exact Hi.
  destruct (Z.testbit x i), (Z.testbit y i); reflexivity.
Qed.

Lemma getAlignment_one (size : Z) : is_u64 size -> LveBuffer.getAlignment size 1 = size.
Proof.
  intros Hs. unfold LveBuffer.getAlignment. simpl.
  unfold u64_and, u64_sub, u64_add, u64_not.
  assert (E : wrap64 (wrap64 (size + 1) - 1) = size).
  { assert (Hcase : size + 1 <= UINT64_MAX \/ size = UINT64_MAX) by bounds.
    destruct Hcase as [Hlt | ->].
    - rewrite (wrap64_small (size + 1)) by bounds.
      replace (size + 1 - 1) with size by lia. apply wrap64_small. bounds.
    - reflexivity. }
  rewrite E.
  change (wrap64 (Z.lnot (wrap64 (1 - 1)))) with (Z.ones 64).
  rewrite Z.land_ones by lia. apply wrap64_small. exact Hs.
Qed.

(** With the default [minOffsetAlignment = 1] (and with 0) the aligned size
    is the instance size, for every size a [VkDeviceSize] holds: the
    instances are packed, [getAlignmentSize] is the stride, and when the
    total fits in 64 bits the buffer holds [instanceSize * instanceCount]
    bytes with instance [i] at [i * instanceSize]. *)
Theorem default_alignment_packs_instances (size count alignment : Z)
  (b : LveBuffer.t) :
  alignment = 1 \/ alignment = 0 ->
  LveBuffer.constructed size count alignment b ->
  LveBuffer.alignmentSize b = size
  /\ LveBuffer.getAlignmentSize b = LveBuffer.alignmentSize b
  /\ (size * count <= UINT64_MAX ->
      LveBuffer.getBufferSize b = size * count
      /\ forall index, 0 <= index < count ->
           info_offset (LveBuffer.descriptorInfoForIndex b index) = index * size).
Proof.
  intros Halign Hb.
  assert (Ha : LveBuffer.alignmentSize b = size).
  { destruct Hb as (Hs & _ & _ & _ & _ & Ea & _). rewrite Ea.
    destruct Halign as [-> | ->]; [now apply getAlignment_one | reflexivity]. }
  assert (Eget : LveBuffer.getAlignmentSize b = size)
    by (destruct Hb as (_ & _ & _ & Es & _); exact Es).
  split; [exact Ha |]. split; [congruence |].
  intros Hprod.
  assert (Hfit : LveBuffer.sizes_fit size count alignment).
  { destruct Hb as (Hs & _ & _ & _ & _ & Ea & _). rewrite Ea in Ha.
    split; [destruct Halign as [-> | ->]; bounds | now rewrite Ha]. }
  split.
  - unfold LveBuffer.getBufferSize.
    rewrite (constructed_bufferSize size count alignment b Hb Hfit), Ha.
    reflexivity.
  - intros index Hi.
    rewrite (descriptorInfoForIndex_run size count alignment b Hb index Hfit Hi).
    simpl. now rewrite Ha.
Qed.

Lemma default_alignment_packs_instances_witness :
  LveBuffer.getAlignment 20 1 = 20
  /\ value_of (b <- LveBuffer.new testDevice 20 6 0 0 1 ;;
               ret (LveBuffer.alignmentSize b, LveBuffer.getBufferSize b,
                    info_offset (LveBuffer.descriptorInfoForIndex b 5)))
     = Some (20, 120, 100).
Proof.
  split; [apply getAlignment_one; bounds |].
  destruct (LveBuffer.new testDevice 20 6 0 0 1 emptyWorld) as [[b w] | | |] eqn:E;
    try discriminate E.
  destruct (new_constructed testDevice 20 6 0 0 1 emptyWorld b w
              ltac:(bounds) ltac:(bounds) ltac:(bounds) E) as (Hb & _).
  destruct (default_alignment_packs_instances 20 6 1 b (or_introl eq_refl) Hb)
    as (Ha & _ & Hrest).
  destruct (Hrest ltac:(bounds)) as [Hsize Hoff].
  unfold value_of, bind, ret. rewrite E.
  rewrite Ha, Hsize, (Hoff 5 ltac:(lia)). reflexivity.
Defined.

(** A size that is already a multiple of a power-of-two alignment is left as
    it is, and aligning twice is aligning once. *)
Theorem getAlignment_fixed_point (size k : Z) :
  is_u64 size -> 0 <= k -> size + 2 ^ k - 1 <= UINT64_MAX ->
  (size mod 2 ^ k = 0 -> LveBuffer.getAlignment size (2 ^ k) = size)
  /\ LveBuffer.getAlignment (LveBuffer.getAlignment size (2 ^ k)) (2 ^ k)
     = LveBuffer.getAlignment size (2 ^ k).
Proof.
  intros [Hs Hs'] Hk Hfit.
  assert (Hp : 0 < 2 ^ k) by (apply Z.pow_pos_nonneg; lia).
  assert (Hfixed : forall s, 0 <= s -> s + 2 ^ k - 1 <= UINT64_MAX ->
                             s mod 2 ^ k = 0 ->
                             LveBuffer.getAlignment s (2 ^ k) = s).
  { intros s H0 H1 Hmod. rewrite getAlignment_pow2 by lia.
    unfold ceil_div. rewrite Hmod. simpl.
    pose proof (Z.div_mod s (2 ^ k) ltac:(lia)). lia. }
  split; [apply Hfixed; assumption |].
  destruct (ceil_div_least size (2 ^ k) Hp) as [[Hle Hlt] Hmod].
  rewrite (getAlignment_pow2 size k) by lia.
  apply Hfixed; [lia | | exact Hmod].
  (* a multiple of [2^k] below [2^64] leaves room for [2^k - 1] more *)
  assert (Hk64 : k <= 64).
  { apply (Z.pow_le_mono_r_iff 2); [lia | lia |]. bounds. }
  assert (Hsplit : 2 ^ 64 = 2 ^ (64 - k) * 2 ^ k)
    by (rewrite <- Z.pow_add_r by lia; f_equal; lia).
  set (m := 2 ^ k) in *. set (q := ceil_div size m) in *.
  set (top := 2 ^ (64 - k)) in *.
  assert (Hq : q < top).
  { apply (Z.mul_lt_mono_pos_r m); [exact Hp |]. unfold UINT64_MAX in *. lia. }
  assert (Hnext : (q + 1) * m <= top * m)
    by (apply Z.mul_le_mono_nonneg_r; lia).
  unfold UINT64_MAX in *. lia.
Qed.

Lemma getAlignment_fixed_point_witness :
  LveBuffer.getAlignment 256 (2 ^ 6) = 256
  /\ LveBuffer.getAlignment (LveBuffer.getAlignment 68 (2 ^ 6)) (2 ^ 6)
     = LveBuffer.getAlignment 68 (2 ^ 6).
Proof.
  split.
  - destruct (getAlignment_fixed_point 256 6 ltac:(bounds) ltac:(lia)
                ltac:(discriminate)) as [Hfixed _].
    exact (Hfixed eq_refl).
  - destruct (getAlignment_fixed_point 68 6 ltac:(bounds) ltac:(lia)
                ltac:(discriminate)) as [_ Hidem].
    exact Hidem.
Defined.

(** Whatever the alignment, power of two or not, as long as the sum does
    not wrap: the result is not below the size, adds less than the
    alignment, and has none of the bits of [alignment - 1]. *)
Theorem getAlignment_any_alignment (size alignment : Z) :
  is_u64 size -> 0 < alignment -> size + alignment - 1 <= UINT64_MAX ->
  size <= LveBuffer.getAlignment size alignment <= size + alignment - 1
  /\ Z.land (LveBuffer.getAlignment size alignment) (alignment - 1) = 0.
Proof.
  intros [Hs Hs'] Ha Hfit.
  rewrite getAlignment_land by lia.
  pose proof (land_lnot_bounds (size + alignment - 1) (alignment - 1)
                ltac:(lia) ltac:(lia)).
  split; [lia | apply land_lnot_clears].
Qed.

Lemma getAlignment_any_alignment_witness :
  5 <= LveBuffer.getAlignment 5 3 <= 5 + 3 - 1
  /\ Z.land (LveBuffer.getAlignment 5 3) (3 - 1) = 0.
Proof.
  apply (getAlignment_any_alignment 5 3); [bounds | lia | discriminate].
Defined.

(** ** The slots of a buffer *)

(** Every slot lies inside the buffer: the range [descriptorInfoForIndex]
    names ends at or before [bufferSize], the instance occupies the front of
    its slot, and [writeToIndex] changes no byte outside the [bufferSize]
    bytes of the mapping. *)
Theorem slots_inside_buffer (size count alignment : Z) (b : LveBuffer.t)
  (index : Z) (data : Z -> Byte.byte) (w : World) :
  LveBuffer.constructed size count alignment b ->
  LveBuffer.sizes_fit size count alignment ->
  0 <= index < count ->
  0 <= info_offset (LveBuffer.descriptorInfoForIndex b index)
  /\ info_offset (LveBuffer.descriptorInfoForIndex b index) + size
     <= info_offset (LveBuffer.descriptorInfoForIndex b index)
        + info_range (LveBuffer.descriptorInfoForIndex b index)
  /\ info_offset (LveBuffer.descriptorInfoForIndex b index)
     + info_range (LveBuffer.descriptorInfoForIndex b index)
     <= LveBuffer.getBufferSize b
  /\ (LveBuffer.mapped b <> nullptr ->
      exists w',
        LveBuffer.writeToIndex b data index w = Returned (tt, w')
        /\ forall x,
             ~ in_range (LveBuffer.mapped b) (LveBuffer.getBufferSize b) x ->
             hostMemory w' x = hostMemory w x).
Proof.
  intros Hb Hfit Hi.
  pose proof (constructed_alignment_u64 size count alignment b Hb Hfit) as Ha.
  pose proof (constructed_bufferSize size count alignment b Hb Hfit) as Ebuf.
  rewrite (descriptorInfoForIndex_run size count alignment b Hb index Hfit Hi).
  unfold LveBuffer.getBufferSize. simpl. rewrite Ebuf.
  assert (Hsize : 0 <= size) by (destruct Hb as ([H0 _] & _); exact H0).
  repeat split; try nia.
  intros Hmapped. eexists. split.
  - erewrite writeToIndex_run by eassumption. reflexivity.
  - intros x Hout. simpl. apply copy_bytes_outside.
    unfold in_range in *. nia.
Qed.

Lemma slots_inside_buffer_witness :
  info_offset (LveBuffer.descriptorInfoForIndex uniformBuffer 2)
  + info_range (LveBuffer.descriptorInfoForIndex uniformBuffer 2)
  <= LveBuffer.getBufferSize uniformBuffer
  /\ exists w',
       LveBuffer.writeToIndex uniformBuffer testData 2 emptyWorld
       = Returned (tt, w')
       /\ hostMemory w' (4096 + 384) = Byte.x00.
Proof.
  destruct (slots_inside_buffer 68 3 64 uniformBuffer 2 testData emptyWorld
              uniformBuffer_constructed uniformBuffer_fits ltac:(lia))
    as (_ & _ & Hend & Hwrite).
  split; [exact Hend |].
  destruct (Hwrite ltac:(discriminate)) as (w' & Hrun & Hout).
  exists w'. split; [exact Hrun |].
  apply (Hout (4096 + 384)). unfold in_range. simpl. lia.
Defined.

(** The slots tile the buffer: the first starts at offset 0, each next one
    starts where the one before ends, and the last ends at [bufferSize]. *)
Theorem slots_tile_buffer (size count alignment : Z) (b : LveBuffer.t) :
  LveBuffer.constructed size count alignment b ->
  LveBuffer.sizes_fit size count alignment ->
  0 < count ->
  info_offset (LveBuffer.descriptorInfoForIndex b 0) = 0
  /\ (forall index,
        0 <= index -> index + 1 < count ->
        info_offset (LveBuffer.descriptorInfoForIndex b (index + 1))
        = info_offset (LveBuffer.descriptorInfoForIndex b index)
          + info_range (LveBuffer.descriptorInfoForIndex b index))
  /\ info_offset (LveBuffer.descriptorInfoForIndex b (count - 1))
     + info_range (LveBuffer.descriptorInfoForIndex b (count - 1))
     = LveBuffer.getBufferSize b.
Proof.
  intros Hb Hfit Hcount.
  pose proof (constructed_bufferSize size count alignment b Hb Hfit) as Ebuf.
  split; [| split].
  - rewrite (descriptorInfoForIndex_run size count alignment b Hb 0 Hfit)
      by lia. reflexivity.
  - intros index H0 H1.
    rewrite (descriptorInfoForIndex_run size count alignment b Hb (index + 1) Hfit)
      by lia.
    rewrite (descriptorInfoForIndex_run size count alignment b Hb index Hfit)
      by lia.
    simpl. lia.
  - rewrite (descriptorInfoForIndex_run size count alignment b Hb (count - 1) Hfit)
      by lia.
    unfold LveBuffer.getBufferSize. simpl. rewrite Ebuf. lia.
Qed.

Lemma slots_tile_buffer_witness :
  info_offset (LveBuffer.descriptorInfoForIndex uniformBuffer 0) = 0
  /\ info_offset (LveBuffer.descriptorInfoForIndex uniformBuffer (1 + 1))
     = info_offset (LveBuffer.descriptorInfoForIndex uniformBuffer 1)
       + info_range (LveBuffer.descriptorInfoForIndex uniformBuffer 1)
  /\ info_offset (LveBuffer.descriptorInfoForIndex uniformBuffer (3 - 1))
     + info_range (LveBuffer.descriptorInfoForIndex uniformBuffer (3 - 1))
     = LveBuffer.getBufferSize uniformBuffer.
Proof.
  destruct (slots_tile_buffer 68 3 64 uniformBuffer uniformBuffer_constructed
              uniformBuffer_fits ltac:(lia)) as (Hfirst & Hnext & Hlast).
  split; [exact Hfirst |]. split; [apply Hnext; lia | exact Hlast].
Defined.

(** With a power-of-two [minOffsetAlignment] every offset handed out by
    [descriptorInfoForIndex], and every range it names, is a multiple of
    that alignment. *)
Theorem slot_offsets_are_aligned (size count k : Z) (b : LveBuffer.t) (index : Z) :
  LveBuffer.constructed size count (2 ^ k) b ->
  LveBuffer.sizes_fit size count (2 ^ k) ->
  0 <= k -> 0 <= index < count ->
  info_offset (LveBuffer.descriptorInfoForIndex b index) mod 2 ^ k = 0
  /\ info_range (LveBuffer.descriptorInfoForIndex b index) mod 2 ^ k = 0.
Proof.
  intros Hb Hfit Hk Hi.
  assert (Hp : 0 < 2 ^ k) by (apply Z.pow_pos_nonneg; lia).
  rewrite (descriptorInfoForIndex_run size count (2 ^ k) b Hb index Hfit Hi).
  simpl.
  assert (Ea : LveBuffer.alignmentSize b = ceil_div size (2 ^ k) * 2 ^ k).
  { destruct Hb as ([Hs _] & _ & _ & _ & _ & Ea & _). rewrite Ea.
    apply getAlignment_pow2; [exact Hs | exact Hk | apply Hfit]. }
  rewrite Ea. split.
  - rewrite Z.mul_assoc. apply Z.mod_mul. lia.
  - apply Z.mod_mul. lia.
Qed.

Lemma slot_offsets_are_aligned_witness :
  info_offset (LveBuffer.descriptorInfoForIndex uniformBuffer 2) mod 2 ^ 6 = 0
  /\ info_range (LveBuffer.descriptorInfoForIndex uniformBuffer 2) mod 2 ^ 6 = 0.
Proof.
  apply (slot_offsets_are_aligned 68 3 6 uniformBuffer 2).
  - exact uniformBuffer_constructed.
  - exact uniformBuffer_fits.
  - lia.
  - lia.
Defined.



(** ** Mapping and unmapping *)

Lemma writeToBuffer_returns (b : LveBuffer.t) (data : Z -> Byte.byte)
  (n offset : Z) (w : World) :
  LveBuffer.mapped b <> nullptr ->
  exists w', LveBuffer.writeToBuffer b data n offset w = Returned (tt, w').
Proof.
  intros Hmapped. rewrite writeToBuffer_run by exact Hmapped.
  destruct (n =? VK_WHOLE_SIZE); eexists; reflexivity.
Qed.

(** On a created buffer whose device maps the memory at a non-null address
    [p]: [map] returns [VK_SUCCESS] and leaves [mapped = p], so
    [writeToBuffer] goes through; [unmap] then asks the device to unmap,
    gives back the buffer as it was before [map] with [mapped = nullptr],
    and [writeToBuffer] stops on its assertion again. *)
Theorem map_write_unmap_round_trip (b : LveBuffer.t) (size offset p : Z)
  (data : Z -> Byte.byte) (n o : Z) (w : World) :
  LveBuffer.buffer b <> VK_NULL_HANDLE ->
  LveBuffer.memory b <> VK_NULL_HANDLE ->
  LveBuffer.mapped b = nullptr ->
  vkMapMemory (LveBuffer.lveDevice b) (LveBuffer.memory b) offset size
  = (VK_SUCCESS, p) ->
  p <> nullptr ->
  exists b1 w1 w2 b2 w3,
    LveBuffer.map b size offset w = Returned ((VK_SUCCESS, b1), w1)
    /\ LveBuffer.getMappedMemory b1 = p
    /\ events w1 = events w ++ [MapMemory (LveBuffer.memory b) offset size]
    /\ LveBuffer.writeToBuffer b1 data n o w1 = Returned (tt, w2)
    /\ LveBuffer.unmap b1 w2 = Returned (b2, w3)
    /\ events w3 = events w2 ++ [UnmapMemory (LveBuffer.memory b)]
    /\ hostMemory w3 = hostMemory w2
    /\ b2 = b
    /\ LveBuffer.writeToBuffer b2 data n o w3
       = AssertionFailed "Cannot copy to unmapped buffer".
Proof.
  intros Hbuffer Hmemory Hunmapped Hdevice Hp.
  destruct b as [dev m0 hb hm bs ic is0 als uf mf]. simpl in *. subst m0.
  assert (Emap : LveBuffer.map
                   {| LveBuffer.lveDevice := dev; LveBuffer.mapped := nullptr;
                      LveBuffer.buffer := hb; LveBuffer.memory := hm;
                      LveBuffer.bufferSize := bs; LveBuffer.instanceCount := ic;
                      LveBuffer.instanceSize := is0; LveBuffer.alignmentSize := als;
                      LveBuffer.usageFlags := uf;
                      LveBuffer.memoryPropertyFlags := mf |} size offset w
                 = Returned
                     ((VK_SUCCESS,
                       {| LveBuffer.lveDevice := dev; LveBuffer.mapped := p;
                          LveBuffer.buffer := hb; LveBuffer.memory := hm;
                          LveBuffer.bufferSize := bs; LveBuffer.instanceCount := ic;
                          LveBuffer.instanceSize := is0;
                          LveBuffer.alignmentSize := als;
                          LveBuffer.usageFlags := uf;
                          LveBuffer.memoryPropertyFlags := mf |}),
                      {| hostMemory := hostMemory w;
                         events := events w ++ [MapMemory hm offset size] |})).
  { unfold LveBuffer.map, bind, assert, request, ret. simpl.
    destruct (Z.eqb_spec hb VK_NULL_HANDLE); [contradiction |].
    destruct (Z.eqb_spec hm VK_NULL_HANDLE); [contradiction |].
    simpl. rewrite Hdevice. reflexivity. }
  assert (Eunmap : forall w',
            LveBuffer.unmap
              {| LveBuffer.lveDevice := dev; LveBuffer.mapped := p;
                 LveBuffer.buffer := hb; LveBuffer.memory := hm;
                 LveBuffer.bufferSize := bs; LveBuffer.instanceCount := ic;
                 LveBuffer.instanceSize := is0; LveBuffer.alignmentSize := als;
                 LveBuffer.usageFlags := uf;
                 LveBuffer.memoryPropertyFlags := mf |} w'
            = Returned
                ({| LveBuffer.lveDevice := dev; LveBuffer.mapped := nullptr;
                    LveBuffer.buffer := hb; LveBuffer.memory := hm;
                    LveBuffer.bufferSize := bs; LveBuffer.instanceCount := ic;
                    LveBuffer.instanceSize := is0; LveBuffer.alignmentSize := als;
                    LveBuffer.usageFlags := uf;
                    LveBuffer.memoryPropertyFlags := mf |},
                 {| hostMemory := hostMemory w';
                    events := events w' ++ [UnmapMemory hm] |})).
  { intros w'. unfold LveBuffer.unmap, bind, request, ret. simpl.
    destruct (Z.eqb_spec p nullptr); [contradiction | reflexivity]. }
  destruct (writeToBuffer_returns
              {| LveBuffer.lveDevice := dev; LveBuffer.mapped := p;
                 LveBuffer.buffer := hb; LveBuffer.memory := hm;
                 LveBuffer.bufferSize := bs; LveBuffer.instanceCount := ic;
                 LveBuffer.instanceSize := is0; LveBuffer.alignmentSize := als;
                 LveBuffer.usageFlags := uf;
                 LveBuffer.memoryPropertyFlags := mf |} data n o
              {| hostMemory := hostMemory w;
                 events := events w ++ [MapMemory hm offset size] |} Hp)
    as [w2 Hwrite].
  do 2 eexists. exists w2. do 2 eexists.
  split; [exact Emap |]. split; [reflexivity |]. split; [reflexivity |].
  split; [exact Hwrite |].
  split; [apply Eunmap |].
  split; [reflexivity |]. split; [reflexivity |]. split; [reflexivity |].
  apply writeToBuffer_unmapped. reflexivity.
Qed.

Lemma map_write_unmap_round_trip_witness :
  exists b1 w1,
    LveBuffer.map unmappedBuffer VK_WHOLE_SIZE 0 emptyWorld
    = Returned ((VK_SUCCESS, b1), w1)
    /\ LveBuffer.getMappedMemory b1 = 4096.
Proof.
  destruct (map_write_unmap_round_trip unmappedBuffer VK_WHOLE_SIZE 0 4096
              testData 68 128 emptyWorld ltac:(discriminate)
              ltac:(discriminate) eq_refl eq_refl ltac:(discriminate))
    as (b1 & w1 & _ & _ & _ & Hmap & Hp & _).
  exists b1, w1. split; [exact Hmap | exact Hp].
Defined.

(** [unmap] sends [vkUnmapMemory] only for a mapped buffer, always leaves
    [mapped = nullptr], and a second [unmap] changes nothing and sends
    nothing. *)
Theorem unmap_is_idempotent (b b1 : LveBuffer.t) (w w1 : World) :
  LveBuffer.unmap b w = Returned (b1, w1) ->
  LveBuffer.getMappedMemory b1 = nullptr
  /\ (LveBuffer.mapped b = nullptr -> b1 = b /\ w1 = w)
  /\ (LveBuffer.mapped b <> nullptr ->
      events w1 = events w ++ [UnmapMemory (LveBuffer.memory b)])
  /\ LveBuffer.unmap b1 w1 = Returned (b1, w1).
Proof.
  unfold LveBuffer.unmap, bind, request, ret, LveBuffer.getMappedMemory.
  destruct (Z.eqb_spec (LveBuffer.mapped b) nullptr) as [E | E]; simpl;
    intros H; injection H as <- <-; simpl.
  - rewrite E. simpl.
    split; [reflexivity |]. split; [intros _; split; reflexivity |].
    split; [intros Hne; contradiction | reflexivity].
  - split; [reflexivity |]. split; [intros Hnull; contradiction |].
    split; [intros _; reflexivity | reflexivity].
Qed.

Lemma unmap_is_idempotent_witness :
  exists b1 w1,
    LveBuffer.unmap uniformBuffer emptyWorld = Returned (b1, w1)
    /\ events w1 = [UnmapMemory 2]
    /\ LveBuffer.unmap b1 w1 = Returned (b1, w1).
Proof.
  destruct (LveBuffer.unmap uniformBuffer emptyWorld) as [[b1 w1] | | |] eqn:E;
    try discriminate E.
  destruct (unmap_is_idempotent uniformBuffer b1 emptyWorld w1 E)
    as (_ & _ & Hevents & Hagain).
  exists b1, w1. split; [reflexivity |].
  split; [exact (Hevents ltac:(discriminate)) | exact Hagain].
Defined.

(** ** Writes that follow one another *)



(** The last write at an index wins: after two writes at the same index the
    slot holds the second data, and host memory is what the second write
    alone would have left. *)
Theorem last_write_at_an_index_wins (size count alignment : Z)
  (b : LveBuffer.t) (index : Z) (first second : Z -> Byte.byte) (w : World) :
  LveBuffer.constructed size count alignment b ->
  LveBuffer.sizes_fit size count alignment ->
  LveBuffer.mapped b <> nullptr ->
  0 <= index < count ->
  exists w2 w1,
    (LveBuffer.writeToIndex b first index ;;;
     LveBuffer.writeToIndex b second index) w = Returned (tt, w2)
    /\ LveBuffer.writeToIndex b second index w = Returned (tt, w1)
    /\ (forall x, hostMemory w2 x = hostMemory w1 x)
    /\ (forall k, 0 <= k < size ->
          hostMemory w2
            (LveBuffer.mapped b + index * LveBuffer.alignmentSize b + k)
          = second k).
Proof.
  intros Hb Hfit Hmapped Hi.
  do 2 eexists.
  split.
  { unfold bind. erewrite writeToIndex_run by eassumption. simpl.
    erewrite writeToIndex_run by eassumption. reflexivity. }
  split; [erewrite writeToIndex_run by eassumption; reflexivity |].
  split.
  - intros x. simpl. unfold copy_bytes.
    destruct ((_ <=? x) && (x <? _)); reflexivity.
  - intros k Hk. simpl. rewrite copy_bytes_inside by (unfold in_range; lia).
    f_equal. lia.
Qed.

Lemma last_write_at_an_index_wins_witness :
  exists w2,
    (LveBuffer.writeToIndex uniformBuffer testData 1 ;;;
     LveBuffer.writeToIndex uniformBuffer otherData 1) emptyWorld
    = Returned (tt, w2)
    /\ hostMemory w2 (4096 + 1 * 128 + 5) = Byte.x07.
Proof.
  destruct (last_write_at_an_index_wins 68 3 64 uniformBuffer 1 testData
              otherData emptyWorld uniformBuffer_constructed uniformBuffer_fits
              ltac:(discriminate) ltac:(lia)) as (w2 & w1 & H1 & _ & _ & H4).
  exists w2. split; [exact H1 | exact (H4 5 ltac:(lia))].
Defined.

(** * Further properties of the swap chain and of the renderer *)

(** [compareSwapFormats] is an equivalence of swap chains: every chain is
    compatible with itself, the answer does not depend on which of the two
    chains is asked, and compatibility carries over a chain in between. *)
Theorem compareSwapFormats_is_equivalence (a b c : LveSwapChain.t) :
  LveSwapChain.compareSwapFormats a a = true
  /\ LveSwapChain.compareSwapFormats a b = LveSwapChain.compareSwapFormats b a
  /\ (LveSwapChain.compareSwapFormats a b = true ->
      LveSwapChain.compareSwapFormats b c = true ->
      LveSwapChain.compareSwapFormats a c = true).
Proof.
  unfold LveSwapChain.compareSwapFormats. split; [| split].
  - now rewrite !Z.eqb_refl.
  - rewrite (Z.eqb_sym (LveSwapChain.swapChainDepthFormat b)),
      (Z.eqb_sym (LveSwapChain.swapChainImageFormat b)). reflexivity.
  - rewrite !andb_true_iff, !Z.eqb_eq. intros [H1 H2] [H3 H4]. split; congruence.
Qed.

Lemma compareSwapFormats_is_equivalence_witness :
  LveSwapChain.compareSwapFormats testChain testChain = true
  /\ LveSwapChain.compareSwapFormats testChain resizedChain = true.
Proof.
  destruct (compareSwapFormats_is_equivalence testChain resizedChain testChain)
    as (Hrefl & _ & Htrans).
  split; [exact Hrefl |].
  destruct (compareSwapFormats_is_equivalence resizedChain testChain resizedChain)
    as (_ & Hsym & _).
  rewrite <- Hsym. reflexivity.
Defined.

(** The two accessors of the renderer go together.  [getFrameIndex] returns
    exactly when a frame is in progress.  A command buffer returned by
    [getCurrentCommandBuffer] is the element of [commandBuffers] at the
    index [getFrameIndex] returns.  With a frame in progress and
    [currentFrameIndex] outside the vector, [getFrameIndex] still returns
    while [getCurrentCommandBuffer] reads outside the vector. *)
Theorem renderer_accessors_agree (r : LveRenderer.t) :
  ((exists index, LveRenderer.getFrameIndex r = Returned index)
   <-> LveRenderer.isFrameInProgres r = true)
  /\ (forall commandBuffer,
        LveRenderer.getCurrentCommandBuffer r = Returned commandBuffer ->
        exists index,
          LveRenderer.getFrameIndex r = Returned index
          /\ 0 <= index < Z.of_nat (length (LveRenderer.commandBuffers r))
          /\ nth_error (LveRenderer.commandBuffers r) (Z.to_nat index)
             = Some commandBuffer
          /\ In commandBuffer (LveRenderer.commandBuffers r))
  /\ (LveRenderer.isFrameInProgres r = true ->
      ~ 0 <= LveRenderer.currentFrameIndex r
             < Z.of_nat (length (LveRenderer.commandBuffers r)) ->
      LveRenderer.getCurrentCommandBuffer r = UndefinedBehaviour
      /\ LveRenderer.getFrameIndex r
         = Returned (LveRenderer.currentFrameIndex r)).
Proof.
  unfold LveRenderer.getFrameIndex, LveRenderer.getCurrentCommandBuffer,
    LveRenderer.isFrameInProgres, vector_at.
  destruct (LveRenderer.isFrameStarted r).
  - split; [split; [reflexivity | intros _; eexists; reflexivity] |].
    split.
    + intros c.
      destruct (Z.leb_spec 0 (LveRenderer.currentFrameIndex r));
        [| discriminate].
      destruct (Z.ltb_spec (LveRenderer.currentFrameIndex r)
                  (Z.of_nat (length (LveRenderer.commandBuffers r))));
        [| discriminate].
      simpl.
      destruct (nth_error _ _) as [c' |] eqn:E; [| discriminate].
      intros Hc. injection Hc as <-.
      exists (LveRenderer.currentFrameIndex r).
      split; [reflexivity |]. split; [lia |]. split; [exact E |].
      eapply nth_error_In. exact E.
    + intros _ Hout.
      destruct (Z.leb_spec 0 (LveRenderer.currentFrameIndex r));
        destruct (Z.ltb_spec (LveRenderer.currentFrameIndex r)
                    (Z.of_nat (length (LveRenderer.commandBuffers r))));
        simpl; try (split; reflexivity).
      exfalso. apply Hout. lia.
  - split; [split; [intros [i H]; discriminate | discriminate] |].
    split; [intros c H; discriminate | intros H; discriminate].
Qed.

Lemma renderer_accessors_agree_witness :
  exists index,
    LveRenderer.getFrameIndex activeRenderer = Returned index
    /\ nth_error (LveRenderer.commandBuffers activeRenderer) (Z.to_nat index)
       = Some 72.
Proof.
  destruct (renderer_accessors_agree activeRenderer) as (_ & Hget & _).
  destruct (Hget 72 eq_refl) as (index & Hindex & _ & Hnth & _).
  exists index. split; [exact Hindex | exact Hnth].
Defined.

(** * [hashCombine] *)

Lemma wrap64_lxor (a b : Z) : wrap64 (Z.lxor a b) = Z.lxor (wrap64 a) (wrap64 b).
Proof.
  unfold wrap64. apply Z.bits_inj'. intros i Hi.
  rewrite Z.lxor_spec.
  destruct (Z.lt_ge_cases i 64).
  - rewrite !Z.mod_pow2_bits_low by lia. apply Z.lxor_spec.
  - rewrite !Z.mod_pow2_bits_high by lia. reflexivity.
Qed.

Lemma combine_range (seed h : Z) : is_u64 seed -> is_u64 (Utils.combine seed h).
Proof.
  intros Hs. unfold Utils.combine, u64_add.
  rewrite <- (wrap64_small seed) at 1 by exact Hs.
  rewrite <- (wrap64_small (wrap64 _)) by apply wrap64_range.
  rewrite <- wrap64_lxor. apply wrap64_range.
Qed.

Lemma wrap64_add_cancel (a b k : Z) :
  is_u64 a -> is_u64 b -> wrap64 (a + k) = wrap64 (b + k) -> a = b.
Proof.
  unfold is_u64, UINT64_MAX, wrap64. intros Ha Hb E.
  pose proof (Z.div_mod (a + k) (2 ^ 64) ltac:(lia)) as Da.
  pose proof (Z.div_mod (b + k) (2 ^ 64) ltac:(lia)) as Db.
  rewrite E in Da. lia.
Qed.

Lemma combine_injective (seed h1 h2 : Z) :
  is_u64 h1 -> is_u64 h2 ->
  Utils.combine seed h1 = Utils.combine seed h2 -> h1 = h2.
Proof.
  intros H1 H2 E. unfold Utils.combine in E.
  apply (f_equal (Z.lxor seed)) in E.
  rewrite <- !Z.lxor_assoc in E.
  rewrite Z.lxor_nilpotent, !Z.lxor_0_l in E.
  assert (Esum : forall h c s t,
            u64_add (u64_add (u64_add h c) s) t = wrap64 (h + (c + s + t))).
  { intros h c s t. unfold u64_add, wrap64.
    rewrite (Zplus_mod_idemp_l (h + c) s), (Zplus_mod_idemp_l (h + c + s) t).
    f_equal. lia. }
  rewrite !Esum in E.
  exact (wrap64_add_cancel h1 h2 _ H1 H2 E).
Qed.

(** [hashCombine] keeps the seed a [size_t], and for a given seed and given
    earlier arguments two different hash values of the last argument give
    two different seeds: the last step loses nothing. *)
Theorem hashCombine_last_argument_injective (seed h : Z) (rest : list Z)
  (last1 last2 : Z) :
  is_u64 seed -> is_u64 last1 -> is_u64 last2 ->
  is_u64 (Utils.hashCombine seed h rest)
  /\ (Utils.hashCombine seed last1 [] = Utils.hashCombine seed last2 [] ->
      last1 = last2)
  /\ (Utils.hashCombine seed h (rest ++ [last1])
      = Utils.hashCombine seed h (rest ++ [last2]) ->
      last1 = last2).
Proof.
  intros Hs H1 H2. unfold Utils.hashCombine. split; [| split].
  - assert (Hfold : forall l s, is_u64 s -> is_u64 (fold_left Utils.combine l s)).
    { induction l as [| v l IH]; intros s Hrange; simpl;
        [exact Hrange | apply IH, combine_range, Hrange]. }
    apply Hfold, combine_range, Hs.
  - simpl. apply combine_injective; assumption.
  - rewrite !fold_left_app. simpl. apply combine_injective; assumption.
Qed.

Lemma hashCombine_last_argument_injective_witness :
  is_u64 (Utils.hashCombine 0 17 [42; 99])
  /\ Utils.hashCombine 0 17 [] = 2654435786.
Proof.
  destruct (hashCombine_last_argument_injective 0 17 [42; 99] 1 2
              ltac:(bounds) ltac:(bounds) ltac:(bounds)) as [Hrange _].
  split; [exact Hrange | reflexivity].
Defined.

(** * Object ids *)

Lemma wrap32_range (z : Z) : 0 <= LveGameObject.wrap32 z <= LveGameObject.UINT_MAX.
Proof.
  unfold LveGameObject.wrap32, LveGameObject.UINT_MAX.
  pose proof (Z.mod_pos_bound z (2 ^ 32) ltac:(lia)). lia.
Qed.

Lemma createGameObjects_ids (n : nat) (currentId : Z) :
  0 <= currentId <= LveGameObject.UINT_MAX ->
  List.map LveGameObject.getId (fst (LveGameObject.createGameObjects n currentId))
  = List.map (fun k => LveGameObject.wrap32 (currentId + Z.of_nat k)) (seq 0 n)
  /\ snd (LveGameObject.createGameObjects n currentId)
     = LveGameObject.wrap32 (currentId + Z.of_nat n).
Proof.
  revert currentId. induction n as [| n IH]; intros c Hc.
  - simpl. rewrite Z.add_0_r. unfold LveGameObject.wrap32.
    rewrite Z.mod_small by (unfold LveGameObject.UINT_MAX in Hc; lia).
    split; reflexivity.
  - cbn [LveGameObject.createGameObjects LveGameObject.createGameObject].
    destruct (IH (LveGameObject.wrap32 (c + 1)) (wrap32_range _)) as [Hids Hlast].
    destruct (LveGameObject.createGameObjects n (LveGameObject.wrap32 (c + 1)))
      as [os last].
    simpl in Hids, Hlast. simpl fst. simpl snd. split.
    + simpl seq. rewrite <- seq_shift. cbn [List.map]. rewrite List.map_map.
      f_equal.
      * unfold LveGameObject.getId. simpl. rewrite Z.add_0_r.
        unfold LveGameObject.wrap32. symmetry. apply Z.mod_small.
        unfold LveGameObject.UINT_MAX in Hc. lia.
      * rewrite Hids. apply List.map_ext. intros k.
        unfold LveGameObject.wrap32. rewrite Zplus_mod_idemp_l. f_equal. lia.
    + rewrite Hlast. unfold LveGameObject.wrap32.
      rewrite Zplus_mod_idemp_l. f_equal. lia.
Qed.

(** Up to [2^32] objects created in a row have pairwise different ids,
    whatever the counter was; counted from the start of the program they
    are [0, 1, 2, ...].  The counter is an [unsigned int]: after [2^32]
    creations it is back where it was, and ids start to repeat. *)
Theorem createGameObject_ids_are_distinct (n : nat) (currentId : Z) :
  0 <= currentId <= LveGameObject.UINT_MAX ->
  Z.of_nat n <= 2 ^ 32 ->
  NoDup (List.map LveGameObject.getId
           (fst (LveGameObject.createGameObjects n currentId)))
  /\ (currentId = 0 ->
      List.map LveGameObject.getId
        (fst (LveGameObject.createGameObjects n currentId))
      = List.map Z.of_nat (seq 0 n))
  /\ (Z.of_nat n = 2 ^ 32 ->
      snd (LveGameObject.createGameObjects n currentId) = currentId).
Proof.
  intros Hc Hn.
  destruct (createGameObjects_ids n currentId Hc) as [Hids Hlast].
  rewrite Hids. split; [| split].
  - apply NoDup_map_NoDup_ForallPairs; [| apply seq_NoDup].
    intros j k Hj Hk E. apply in_seq in Hj, Hk.
    unfold LveGameObject.wrap32, LveGameObject.UINT_MAX in *.
    pose proof (Z.div_mod (currentId + Z.of_nat j) (2 ^ 32) ltac:(lia)) as Dj.
    pose proof (Z.div_mod (currentId + Z.of_nat k) (2 ^ 32) ltac:(lia)) as Dk.
    rewrite E in Dj. lia.
  - intros ->. apply List.map_ext_in. intros k Hk. apply in_seq in Hk.
    unfold LveGameObject.wrap32. apply Z.mod_small. lia.
  - intros E. rewrite Hlast, E. unfold LveGameObject.wrap32.
    symmetry. apply (Z.mod_unique _ _ 1); unfold LveGameObject.UINT_MAX in Hc; lia.
Qed.

Lemma createGameObject_ids_are_distinct_witness :
  NoDup (List.map LveGameObject.getId
           (fst (LveGameObject.createGameObjects 4 0)))
  /\ List.map LveGameObject.getId (fst (LveGameObject.createGameObjects 4 0))
     = [0; 1; 2; 3].
Proof.
  destruct (createGameObject_ids_are_distinct 4 0 ltac:(split; discriminate)
              ltac:(discriminate)) as (Hdistinct & Hids & _).
  split; [exact Hdistinct | exact (Hids eq_refl)].
Defined.

(** * Boxes *)

Section BoxFacts.

Context {F : Type} {order : FloatOrder F}.

Lemma fle_refl (a : F) : fle a a = true.
Proof. destruct (fle_total a a); assumption. Qed.

Lemma fle_false (a b : F) : fle a b = false -> fle b a = true.
Proof. intros E. destruct (fle_total a b) as [H | H]; congruence. Qed.

(** One axis of [of_points]. *)
Lemma select_bounds (a b : F) :
  let lo := if flt a b then a else b in
  let hi := if flt b a then a else b in
  fle lo hi = true /\ fle lo a = true /\ fle a hi = true
  /\ fle lo b = true /\ fle b hi = true.
Proof.
  simpl. rewrite !flt_fle.
  destruct (fle b a) eqn:Eba, (fle a b) eqn:Eab; simpl;
    repeat split; auto using fle_refl, fle_false.
Qed.

(** The box built from two points is well formed and contains both, in
    whatever order and position the points are given, and [setBoxPoint]
    gives the same box whatever the box was before. *)
Theorem box_of_points_contains_both (this : AABB.t F) (pointA pointB : AABB.vec3 F) :
  AABB.well_formed (AABB.of_points pointA pointB)
  /\ AABB.isPointInside (AABB.of_points pointA pointB) pointA = true
  /\ AABB.isPointInside (AABB.of_points pointA pointB) pointB = true
  /\ AABB.setBoxPoint this pointA pointB = AABB.of_points pointA pointB.
Proof.
  destruct (select_bounds (AABB.x pointA) (AABB.x pointB)) as (X1 & X2 & X3 & X4 & X5).
  destruct (select_bounds (AABB.y pointA) (AABB.y pointB)) as (Y1 & Y2 & Y3 & Y4 & Y5).
  destruct (select_bounds (AABB.z pointA) (AABB.z pointB)) as (Z1 & Z2 & Z3 & Z4 & Z5).
  unfold AABB.well_formed, AABB.isPointInside, AABB.of_points. simpl.
  split; [repeat split; assumption |].
  split; [rewrite X2, X3, Y2, Y3, Z2, Z3; reflexivity |].
  split; [rewrite X4, X5, Y4, Y5, Z4, Z5; reflexivity | reflexivity].
Qed.

(** [isIntersectAABB] does not depend on which box is asked, and the
    members of [Colision] give the answers the members of [AABB] give. *)
Theorem box_intersection_is_symmetric (a b : AABB.t F) (point : AABB.vec3 F) :
  AABB.isIntersectAABB a b = AABB.isIntersectAABB b a
  /\ AABB.Colision_isIntersectAABB2 a b = AABB.isIntersectAABB a b
  /\ AABB.Colision_isPointInsideAABB point a = AABB.isPointInside a point
  /\ (AABB.well_formed a -> AABB.isIntersectAABB a a = true).
Proof.
  unfold AABB.isIntersectAABB, AABB.Colision_isIntersectAABB2,
    AABB.Colision_isPointInsideAABB, AABB.isPointInside, AABB.well_formed.
  split; [| split; [| split]].
  - destruct (fle (AABB.minX b) (AABB.maxX a)), (fle (AABB.minX a) (AABB.maxX b)),
      (fle (AABB.minY b) (AABB.maxY a)), (fle (AABB.minY a) (AABB.maxY b)),
      (fle (AABB.minZ b) (AABB.maxZ a)), (fle (AABB.minZ a) (AABB.maxZ b));
      reflexivity.
  - destruct (fle (AABB.minX b) (AABB.maxX a)), (fle (AABB.minX a) (AABB.maxX b)),
      (fle (AABB.minY b) (AABB.maxY a)), (fle (AABB.minY a) (AABB.maxY b)),
      (fle (AABB.minZ b) (AABB.maxZ a)), (fle (AABB.minZ a) (AABB.maxZ b));
      reflexivity.
  - reflexivity.
  - intros (Hx & Hy & Hz). rewrite Hx, Hy, Hz. reflexivity.
Qed.

(** One axis of two overlapping boxes: the larger of the two minima, chosen
    by [AABB::max], lies in both intervals. *)
Lemma max_of_minima_in_both (amin amax bmin bmax : F) :
  fle amin amax = true -> fle bmin bmax = true ->
  fle bmin amax = true -> fle amin bmax = true ->
  fle amin (AABB.max amin bmin) = true /\ fle (AABB.max amin bmin) amax = true
  /\ fle bmin (AABB.max amin bmin) = true /\ fle (AABB.max amin bmin) bmax = true.
Proof.
  intros Ha Hb Hba Hab. unfold AABB.max.
  destruct (fle bmin amin) eqn:E;
    repeat split; auto using fle_refl, fle_false.
Qed.

(** Two well-formed boxes intersect, by [isIntersectAABB], exactly when some
    point is inside both, by [isPointInside]. *)
Theorem boxes_intersect_iff_common_point (a b : AABB.t F) :
  AABB.well_formed a -> AABB.well_formed b ->
  (AABB.isIntersectAABB a b = true
   <-> exists point,
         AABB.isPointInside a point = true /\ AABB.isPointInside b point = true).
Proof.
  intros (Hax & Hay & Haz) (Hbx & Hby & Hbz).
  unfold AABB.isIntersectAABB, AABB.isPointInside. split.
  - rewrite !andb_true_iff. intros [[[[[X1 X2] Y1] Y2] Z1] Z2].
    destruct (max_of_minima_in_both _ _ _ _ Hax Hbx X1 X2) as (P1 & P2 & P3 & P4).
    destruct (max_of_minima_in_both _ _ _ _ Hay Hby Y1 Y2) as (Q1 & Q2 & Q3 & Q4).
    destruct (max_of_minima_in_both _ _ _ _ Haz Hbz Z1 Z2) as (R1 & R2 & R3 & R4).
    exists {| AABB.x := AABB.max (AABB.minX a) (AABB.minX b);
              AABB.y := AABB.max (AABB.minY a) (AABB.minY b);
              AABB.z := AABB.max (AABB.minZ a) (AABB.minZ b) |}.
    simpl. rewrite P1, P2, P3, P4, Q1, Q2, Q3, Q4, R1, R2, R3, R4.
    split; reflexivity.
  - intros (p & Hpa & Hpb). rewrite !andb_true_iff in *.
    destruct Hpa as [[[[[A1 A2] A3] A4] A5] A6].
    destruct Hpb as [[[[[B1 B2] B3] B4] B5] B6].
    repeat split; eauto using fle_trans.
Qed.

(** [min] and [max] return one of their two arguments, [min] one that is
    not above the other and [max] one that is not below.  Clamping a value
    as [isIntersectSphere] and [isIntersectSphereAABB] do, by
    [max (lo, min (v, hi))] with [lo <= hi], gives a value between [lo] and
    [hi], and a value the order does not tell from [v] when [v] is already
    between them. *)
Theorem min_max_clamp (lo hi v : F) :
  (AABB.min v hi = v \/ AABB.min v hi = hi)
  /\ fle (AABB.min v hi) v = true /\ fle (AABB.min v hi) hi = true
  /\ (AABB.max lo v = lo \/ AABB.max lo v = v)
  /\ fle lo (AABB.max lo v) = true /\ fle v (AABB.max lo v) = true
  /\ (fle lo hi = true ->
      fle lo (AABB.max lo (AABB.min v hi)) = true
      /\ fle (AABB.max lo (AABB.min v hi)) hi = true
      /\ (fle lo v = true -> fle v hi = true ->
          fle (AABB.max lo (AABB.min v hi)) v = true
          /\ fle v (AABB.max lo (AABB.min v hi)) = true)).
Proof.
  assert (Hmin : forall a b,
            (AABB.min a b = a \/ AABB.min a b = b)
            /\ fle (AABB.min a b) a = true /\ fle (AABB.min a b) b = true).
  { intros a b. unfold AABB.min. rewrite flt_fle.
    destruct (fle a b) eqn:E; simpl;
      repeat split; auto using fle_refl, fle_false. }
  assert (Hmax : forall a b,
            (AABB.max a b = a \/ AABB.max a b = b)
            /\ fle a (AABB.max a b) = true /\ fle b (AABB.max a b) = true).
  { intros a b. unfold AABB.max.
    destruct (fle b a) eqn:E; repeat split; auto using fle_refl, fle_false. }
  destruct (Hmin v hi) as (Hm1 & Hm2 & Hm3).
  destruct (Hmax lo v) as (HM1 & HM2 & HM3).
  destruct (Hmax lo (AABB.min v hi)) as (Hc1 & Hc2 & Hc3).
  do 6 (split; [assumption |]).
  intros Hlh. split; [exact Hc2 |]. split.
  - destruct Hc1 as [-> | ->]; assumption.
  - intros Hlv Hvh. split.
    + destruct Hc1 as [-> | ->]; assumption.
    + apply (fle_trans _ (AABB.min v hi)); [| exact Hc3].
      destruct Hm1 as [-> | ->]; [apply fle_refl | exact Hvh].
Qed.

End BoxFacts.

Lemma box_of_points_contains_both_witness :
  AABB.of_points cornerA cornerB
  = {| AABB.minX := 2; AABB.maxX := 4; AABB.minY := -1; AABB.maxY := 3;
       AABB.minZ := 7; AABB.maxZ := 7 |}
  /\ AABB.isPointInside (AABB.of_points cornerA cornerB) cornerA = true.
Proof.
  destruct (box_of_points_contains_both unitBox cornerA cornerB)
    as (_ & Hinside & _).
  split; [reflexivity | exact Hinside].
Defined.

Lemma box_intersection_is_symmetric_witness :
  AABB.isIntersectAABB unitBox shiftedBox = true
  /\ AABB.isIntersectAABB shiftedBox unitBox = true.
Proof.
  destruct (box_intersection_is_symmetric unitBox shiftedBox cornerA)
    as (Hsym & _).
  split; [reflexivity | rewrite <- Hsym; reflexivity].
Defined.

Lemma unitBox_well_formed : AABB.well_formed unitBox.
Proof. repeat split. Defined.

Lemma shiftedBox_well_formed : AABB.well_formed shiftedBox.
Proof. repeat split. Defined.

Lemma boxes_intersect_iff_common_point_witness :
  exists point,
    AABB.isPointInside unitBox point = true
    /\ AABB.isPointInside shiftedBox point = true.
Proof.
  apply (boxes_intersect_iff_common_point unitBox shiftedBox
           unitBox_well_formed shiftedBox_well_formed).
  reflexivity.
Defined.

Lemma min_max_clamp_witness :
  AABB.max 0 (AABB.min 12 10) = 10
  /\ fle 0 (AABB.max 0 (AABB.min 12 10)) = true
  /\ fle (AABB.max 0 (AABB.min 12 10)) 10 = true.
Proof.
  destruct (min_max_clamp 0 10 12) as (_ & _ & _ & _ & _ & _ & Hclamp).
  destruct (Hclamp eq_refl) as (Hlo & Hhi & _).
  split; [reflexivity |]. split; [exact Hlo | exact Hhi].
Defined.
